(** * iso-flow-view: the plan-to-layout engine and the wire router of [app.ts]

    A shallow embedding of [src/app.ts] and the properties of its layout
    ([render], [createNode]) and of its wire routing ([pathBetween],
    [bezierMidpoint]).

    Numbers.  The layout is stated over an idealised [number], an exact
    rational or [NaN]: its statements say which sums and products the
    program forms, on the small integers of the layout.  The router,
    which is given any boxes, is embedded a second time over IEEE 754
    doubles ([Binary64]), with the reading and the printing of numbers of
    the runtime: what depends on rounding, on infinities or on the digits
    of a double is stated there.

    The page.  The canvas is the list of its children in document order,
    each with the elements it contains, the wires layer the list of its
    paths, and [nodePositions] a finite map from identifiers to boxes.
    The sizes that the browser reports are parameters of the embedding.

    Statements.  The functions that touch the page are computations on it
    that complete normally or throw; the only exceptions the program can
    raise are the [TypeError]s of reading a property of [undefined]. *)

From Stdlib Require Import QArith Qcanon Ascii String List SpecFloat.
From stdpp Require Import base numbers list strings pretty gmap.

Local Open Scope string_scope.
Local Open Scope Z_scope.

(** ** Numbers *)

Module Num.

(** The idealised [number] of the layout: an exact rational or [NaN].
    Its operations do not round and there are no infinities; the doubles
    of the runtime are in [Binary64]. *)
Inductive number : Type :=
| Fin (q : Qc)
| NaN.

Global Instance number_eq_dec : EqDecision number.
Proof. solve_decision. Defined.

Definition ofZ (z : Z) : number := Fin (Qc_of_Z z).

Definition lift2 (f : Qc -> Qc -> Qc) (a b : number) : number :=
  match a, b with
  | Fin x, Fin y => Fin (f x y)
  | _, _ => NaN
  end.

Definition add : number -> number -> number := lift2 Qcplus.
Definition sub : number -> number -> number := lift2 Qcminus.
Definition mul : number -> number -> number := lift2 Qcmult.
Definition div : number -> number -> number := lift2 Qcdiv.

(** [ToNumber] of a value that is a number or [undefined]: what the
    arithmetic operators apply to an operand read out of an array. *)
Definition ToNumber (v : option number) : number :=
  match v with
  | Some n => n
  | None => NaN
  end.

End Num.

Import Num.

Declare Scope num_scope.
Delimit Scope num_scope with num.
Bind Scope num_scope with number.
Infix "+" := Num.add : num_scope.
Infix "-" := Num.sub : num_scope.
Infix "*" := Num.mul : num_scope.
Infix "/" := Num.div : num_scope.

(** ** Decimal text of numbers *)

Module Text.

Definition is_digit (c : ascii) : bool :=
  let n := N_of_ascii c in ((48 <=? n) && (n <=? 57))%N.

Definition digit_val (c : ascii) : Z := Z.of_N (N_of_ascii c) - 48.

Definition digit_char (d : Z) : ascii := ascii_of_N (Z.to_N (48 + d)).

Fixpoint digits_val (acc : Z) (ds : list ascii) : Z :=
  match ds with
  | [] => acc
  | c :: ds' => digits_val (10 * acc + digit_val c) ds'
  end.

(** One match of [/-?\d+(\.\d+)?/]: sign, integer digits, fraction digits. *)
Record token : Type := Token {
  tok_neg : bool;
  tok_int : list ascii;
  tok_frac : list ascii
}.

Definition minus_char : ascii := "-"%char.
Definition dot_char : ascii := "."%char.

(** [\d*] at the head of [s]: the longest run of digits and what follows it. *)
Fixpoint spanDigits (s : string) : list ascii * string :=
  match s with
  | String c r =>
      if is_digit c then
        let '(ds, rest) := spanDigits r in (c :: ds, rest)
      else ([], s)
  | EmptyString => ([], EmptyString)
  end.

(** [\d+(\.\d+)?] at the head of [s].  The digits are taken greedily; the
    group is taken when a dot and at least one digit follow. *)
Definition matchUnsigned (neg : bool) (s : string) : option token :=
  match spanDigits s with
  | ([], _) => None
  | (ds, rest) =>
      match rest with
      | String c r =>
          if Ascii.eqb c dot_char then Some (Token neg ds (fst (spanDigits r)))
          else Some (Token neg ds [])
      | EmptyString => Some (Token neg ds [])
      end
  end.

(** [-?\d+(\.\d+)?] at the head of [s]: the sign is tried first and given
    up when no digit follows it. *)
Definition matchHere (s : string) : option token :=
  match s with
  | String c r =>
      if Ascii.eqb c minus_char then
        match matchUnsigned true r with
        | Some t => Some t
        | None => matchUnsigned false s
        end
      else matchUnsigned false s
  | EmptyString => None
  end.

(** The number of characters of a match. *)
Definition tokenLength (t : token) : nat :=
  ((if tok_neg t then 1 else 0) + length (tok_int t)
   + match tok_frac t with [] => 0 | fs => 1 + length fs end)%nat.

(** [s.match(/-?\d+(\.\d+)?/g)]: the expression is tried at each position
    from left to right, and after a match the search resumes at the end of
    the match; [skip] counts the characters of the last match still to pass. *)
Fixpoint matchAll (skip : nat) (s : string) : list token :=
  match s with
  | EmptyString => []
  | String c r =>
      match skip with
      | S k => matchAll k r
      | O =>
          match matchHere s with
          | Some t => t :: matchAll (tokenLength t - 1) r
          | None => matchAll 0 r
          end
      end
  end.

(** [Number(tok)] for the text of a match: the decimal it denotes, not
    rounded to a double. *)
Definition Number (t : token) : number :=
  let i := digits_val 0 (tok_int t) in
  let f := digits_val 0 (tok_frac t) in
  let scale := Z.pow 10 (Z.of_nat (length (tok_frac t))) in
  let mag := (Qc_of_Z i + Qc_of_Z f / Qc_of_Z scale)%Qc in
  Fin (if tok_neg t then (- mag)%Qc else mag).

(** [d.match(/-?\d+(\.\d+)?/g)?.map(Number) || []] *)
Definition matchNumbers (d : string) : list number :=
  map Number (matchAll 0 d).

(** *** [Number::toString]

    The steps of ECMAScript's [Number::toString] in radix 10, on the exact
    decimal expansion of the value: [s] is the digit string without leading
    or trailing zeros, [k] its length and [n] the position of the decimal
    point, so that the value is [0.s * 10^n].  (For a double the digits are
    the shortest that read back as that double, see [Binary64.ToString].) *)

Fixpoint fracDigits (fuel : nat) (r b : Z) : list ascii :=
  match fuel with
  | O => []
  | S fuel' =>
      if r =? 0 then []
      else digit_char (10 * r / b) :: fracDigits fuel' (10 * r mod b) b
  end.

(** No double has more than 1074 fractional places; a rational whose
    expansion does not end is not the value of a double and is cut there. *)
Definition max_places : nat := 1100.

Definition is_zero_char (c : ascii) : bool := Ascii.eqb c "0"%char.

Fixpoint dropZeros (ds : list ascii) : list ascii :=
  match ds with
  | c :: ds' => if is_zero_char c then dropZeros ds' else ds
  | [] => []
  end.

Fixpoint countZeros (ds : list ascii) : nat :=
  match ds with
  | c :: ds' => if is_zero_char c then S (countZeros ds') else O
  | [] => O
  end.

Definition stripTrailingZeros (ds : list ascii) : list ascii :=
  rev (dropZeros (rev ds)).

Definition decDigits (m : Z) : list ascii :=
  list_ascii_of_string (pretty (Z.to_N m)).

Definition zeros (m : nat) : list ascii := repeat "0"%char m.

(** Steps 6 to 10 of [Number::toString]. *)
Definition layoutDigits (s : list ascii) (n : Z) : list ascii :=
  let k := Z.of_nat (length s) in
  if (k <=? n) && (n <=? 21) then
    s ++ zeros (Z.to_nat (n - k))
  else if (0 <? n) && (n <=? 21) then
    take (Z.to_nat n) s ++ [dot_char] ++ drop (Z.to_nat n) s
  else if (-6 <? n) && (n <=? 0) then
    ["0"%char; dot_char] ++ zeros (Z.to_nat (- n)) ++ s
  else
    let e := n - 1 in
    let sign := if 0 <=? e then "+"%char else minus_char in
    let mant := match s with
                | [] => []
                | [c] => [c]
                | c :: rest => c :: dot_char :: rest
                end in
    mant ++ ["e"%char; sign] ++ decDigits (Z.abs e).

Definition positiveToString (a : Z) (b : Z) : list ascii :=
  let ip := a / b in
  let fr := fracDigits max_places (a mod b) b in
  if ip =? 0 then
    layoutDigits (stripTrailingZeros (dropZeros fr)) (- Z.of_nat (countZeros fr))
  else
    let ds := decDigits ip in
    layoutDigits (stripTrailingZeros (ds ++ fr)) (Z.of_nat (length ds)).

(** [`${v}`] for a number [v]. *)
Definition ToString (v : number) : string :=
  match v with
  | NaN => "NaN"
  | Fin q =>
      let a := Qnum (this q) in
      let b := Zpos (Qden (this q)) in
      if a =? 0 then "0"
      else if a <? 0 then
        string_of_list_ascii (minus_char :: positiveToString (- a) b)
      else string_of_list_ascii (positiveToString a b)
  end.

(** [s.toUpperCase()] for a text whose letters are ASCII letters: the
    other characters are left as they are, which is not what the runtime
    does with the letters beyond ASCII. *)
Definition upper_char (c : ascii) : ascii :=
  let n := N_of_ascii c in
  if ((97 <=? n) && (n <=? 122))%N then ascii_of_N (n - 32) else c.

Fixpoint toUpperCase (s : string) : string :=
  match s with
  | EmptyString => EmptyString
  | String c s' => String (upper_char c) (toUpperCase s')
  end.

End Text.

Import Text.

(** ** The plan model *)

(** [payload?: any]: literal data the layout never inspects. *)
Inductive Json : Type :=
| JString (s : string)
| JObject (fields : list Field)
with Field : Type :=
| mkField (key : string) (value : Json).

Module Action.
Record t : Type := mk {
  id : string;
  provider : option string;
  label : string;
  tool_name : option string;
  payload : option Json
}.
End Action.

Module StoreVariable.
Record t : Type := mk { variable_name : string; description : string }.
End StoreVariable.

(** One entry of a [sequential] array. *)
Module Inline.
Record t : Type := mk {
  label : option string;
  call_type : option string;
  tool_name : string;
  payload : option Json;
  store_variables : option (list StoreVariable.t)
}.
End Inline.

Inductive Step : Type :=
| ActionStep (action : Action.t)
| SplitStep (id label : string) (branches : list Branch)
| SequentialStep (sequential : list Inline.t)
with Branch : Type :=
| mkBranch (label : string) (steps : list Step).

Definition Branch_label (br : Branch) : string :=
  let 'mkBranch l _ := br in l.
Definition Branch_steps (br : Branch) : list Step :=
  let 'mkBranch _ ss := br in ss.

Record Plan : Type := mkPlan { steps : list Step }.

Definition example : Plan :=
  mkPlan
    [ SplitStep "is_manager" "Is manager?"
        [ mkBranch "true"
            [ ActionStep (Action.mk "add_to_channel" (Some "slack") "Add to channel"
                            (Some "SLACK_INVITE_TO_CHANNEL")
                            (Some (JObject [mkField "channel" (JString "managers")]))) ];
          mkBranch "false"
            [ ActionStep (Action.mk "update_profile" (Some "slack") "Update profile"
                            (Some "SLACK_UPDATE_PROFILE")
                            (Some (JObject [mkField "title" (JString "IC")]))) ] ];
      SequentialStep
        [ Inline.mk (Some "Create product") (Some "Composio") "SHOPIFY_CREATE_PRODUCT"
            (Some (JObject [mkField "title" (JString "iPhone")])) None;
          Inline.mk (Some "Generate image") (Some "SELF_MADE") "OPENAI_IMAGE_GENERATION"
            (Some (JObject [mkField "prompt_text" (JString "iPhone");
                            mkField "output_filename" (JString "iphone.png")])) None;
          Inline.mk (Some "Expose file") (Some "SELF_MADE") "EXPOSE_FILE_ON_URL"
            (Some (JObject [mkField "file_path" (JString "{generated_image}")])) None;
          Inline.mk (Some "Attach image") (Some "Composio") "SHOPIFY_CREATE_PRODUCT_IMAGE"
            (Some (JObject [mkField "image" (JObject [mkField "src" (JString "{image_url}")]);
                            mkField "product_id" (JString "{product_id}")])) None ] ].

(** ** The page: canvas, wires and the node-box mapping *)

Inductive NodeType : Type := decision | action.

(** The elements below the canvas.  A node is the [div.node] that
    [createNode] builds (its [dataset.nodeId], its type, the title and
    subtitle of its markup, and the numbers written to [style.left] and
    [style.top]); a label is the [div.branch-label] of [labelAt]; anything
    else the page holds in the canvas is [OtherEl], with its own tag and
    attributes and the elements it contains, which may again be nodes and
    labels. *)
#[warnings="-register-all"]
Inductive Element : Type :=
| NodeEl (nodeId : string) (type : NodeType) (title subtitle : string) (left top : number)
| LabelEl (text : string) (left top : number)
| OtherEl (markup : string) (children : list Element).

(** A [path] of the wires layer; its other attributes are constants. *)
Record SvgPath : Type := mkPath { d : string }.

Module NodeBBox.
Record t : Type := mk { x : number; y : number; w : number; h : number; el : Element }.
End NodeBBox.

Module Point.
Record t : Type := mk { x : number; y : number }.
End Point.

Record World : Type := mkWorld {
  canvas : list Element;
  svg : list SvgPath;
  nodePositions : gmap string NodeBBox.t;
  viewBox : option string
}.

(** ** Statements that may throw *)

Inductive Exn : Type := TypeError (msg : string).

Inductive Completion (A : Type) : Type :=
| Normal (a : A)
| Throw (e : Exn).
Arguments Normal {A} a.
Arguments Throw {A} e.

Definition M (A : Type) : Type := World -> Completion A * World.

Definition ret {A} (a : A) : M A := fun wd => (Normal a, wd).

Definition bind {A B} (c : M A) (k : A -> M B) : M B :=
  fun wd =>
    match c wd with
    | (Normal a, wd') => k a wd'
    | (Throw e, wd') => (Throw e, wd')
    end.

Definition throw {A} (e : Exn) : M A := fun wd => (Throw e, wd).

Definition modify (f : World -> World) : M unit := fun wd => (Normal tt, f wd).

Definition gets {A} (f : World -> A) : M A := fun wd => (Normal (f wd), wd).

Notation "'let*' x ':=' c 'in' k" := (bind c (fun x => k))
  (at level 10, x pattern, c at level 100, k at level 200).
Notation "c ';;' k" := (bind c (fun _ => k))
  (at level 100, k at level 200, right associativity).

(** [xs.forEach((a, i) => body)] *)
Fixpoint forEachFrom {A} (body : A -> nat -> M unit) (i : nat) (xs : list A) : M unit :=
  match xs with
  | [] => ret tt
  | a :: xs' => body a i ;; forEachFrom body (S i) xs'
  end.

Definition forEach {A} (body : A -> nat -> M unit) (xs : list A) : M unit :=
  forEachFrom body 0 xs.

(** JavaScript truthiness of a string and of a string-or-undefined, and [a || b]. *)
Definition truthy (s : string) : bool :=
  match s with EmptyString => false | String _ _ => true end.

Definition orElse (a : option string) (b : string) : string :=
  match a with
  | Some s => if truthy s then s else b
  | None => b
  end.

(** ** The program *)

Module Opts.
Record t : Type := mk {
  title : string;
  subtitle : option string;
  type : NodeType;
  x : number;
  y : number
}.
End Opts.

(** [pathBetween]: the curve from the right middle of [from] to the left
    middle of [to], as the text of an SVG path. *)
Definition pathBetween (from to : NodeBBox.t) (dx : number) : string :=
  let x1 := (NodeBBox.x from + NodeBBox.w from)%num in
  let y1 := (NodeBBox.y from + NodeBBox.h from / ofZ 2)%num in
  let x2 := NodeBBox.x to in
  let y2 := (NodeBBox.y to + NodeBBox.h to / ofZ 2)%num in
  let cx1 := (x1 + dx)%num in
  let cx2 := (x2 - dx)%num in
  "M " +:+ ToString x1 +:+ " " +:+ ToString y1 +:+
  " C " +:+ ToString cx1 +:+ " " +:+ ToString y1 +:+
  ", " +:+ ToString cx2 +:+ " " +:+ ToString y2 +:+
  ", " +:+ ToString x2 +:+ " " +:+ ToString y2.

(** [bezierMidpoint]: De Casteljau at [t = 0.5] on the numbers read back
    from the path text.  An element the array does not have is [undefined],
    which the additions turn into [NaN]; nothing in the function throws. *)
Definition bezierMidpoint (d : string) : Point.t :=
  let nums := matchNumbers d in
  let at_ (i : nat) := ToNumber (nums !! i) in
  let x1 := at_ 0%nat in let y1 := at_ 1%nat in
  let cx1 := at_ 2%nat in let cy1 := at_ 3%nat in
  let cx2 := at_ 4%nat in let cy2 := at_ 5%nat in
  let x2 := at_ 6%nat in let y2 := at_ 7%nat in
  let two := ofZ 2 in
  let q0x := ((x1 + cx1) / two)%num in let q0y := ((y1 + cy1) / two)%num in
  let q1x := ((cx1 + cx2) / two)%num in let q1y := ((cy1 + cy2) / two)%num in
  let q2x := ((cx2 + x2) / two)%num in let q2y := ((cy2 + y2) / two)%num in
  let r0x := ((q0x + q1x) / two)%num in let r0y := ((q0y + q1y) / two)%num in
  let r1x := ((q1x + q2x) / two)%num in let r1y := ((q1y + q2y) / two)%num in
  Point.mk ((r0x + r1x) / two)%num ((r0y + r1y) / two)%num.

(** [".node, .branch-label"] *)
Definition isNodeOrLabel (e : Element) : bool :=
  match e with
  | NodeEl _ _ _ _ _ _ | LabelEl _ _ _ => true
  | OtherEl _ _ => false
  end.

Definition appendChild (e : Element) (wd : World) : World :=
  mkWorld (canvas wd ++ [e]) (svg wd) (nodePositions wd) (viewBox wd).

Definition appendPath (p : SvgPath) (wd : World) : World :=
  mkWorld (canvas wd) (svg wd ++ [p]) (nodePositions wd) (viewBox wd).

(** [nodePositions[id] = box]: what [nodePositions[id]] reads from then on.
    (For the key [__proto__] the box is kept as the prototype of the object
    and not as an entry of it, see [ownKeys].) *)
Definition setBox (id : string) (b : NodeBBox.t) (wd : World) : World :=
  mkWorld (canvas wd) (svg wd) (<[id := b]> (nodePositions wd)) (viewBox wd).

Definition setViewBox (v : string) (wd : World) : World :=
  mkWorld (canvas wd) (svg wd) (nodePositions wd) (Some v).

(** [querySelectorAll(".node, .branch-label").forEach(n => n.remove())]
    on an element: the selector finds the matching elements at every depth
    below the canvas, so an element that matches goes with all it contains,
    and one that does not match stays and loses its matching descendants. *)
Fixpoint removeMatching (e : Element) : list Element :=
  match e with
  | OtherEl markup children => [OtherEl markup (flat_map removeMatching children)]
  | _ => []
  end.

(** The first three statements of [render]. *)
Definition clearAll (wd : World) : World :=
  mkWorld (flat_map removeMatching (canvas wd)) [] ∅ (viewBox wd).

(** [nodePositions[id]] read for its fields: a missing entry is [undefined]
    and the first property access on it throws. *)
Definition boxOf (id : string) : M NodeBBox.t :=
  fun wd =>
    match nodePositions wd !! id with
    | Some b => (Normal b, wd)
    | None => (Throw (TypeError "Cannot read properties of undefined"), wd)
    end.

Definition addWire (d : string) : M SvgPath :=
  let p := mkPath d in
  modify (appendPath p) ;; ret p.

Definition labelAt (mid : Point.t) (text : string) : M unit :=
  modify (appendChild (LabelEl text (Point.x mid) (Point.y mid))).

Definition originX : number := ofZ 140.
Definition originY : number := ofZ 160.
Definition columnWidth : number := ofZ 320.
Definition gapY : number := ofZ 140.

Definition index (i : nat) : number := ofZ (Z.of_nat i).

(** [`b${i}`] and [`seq_${idx}_${a.tool_name}`] *)
Definition branchFallbackId (i : nat) : string := "b" +:+ pretty i.
Definition sequentialId (idx : nat) (tool_name : string) : string :=
  "seq_" +:+ pretty idx +:+ "_" +:+ tool_name.

Section Renderer.

(** What the browser reports: the width and height of a node once it is
    in the canvas, and the width and height of the canvas itself. *)
Variable measure : Element -> number * number.
Variable canvasRect : list Element -> number * number.

Definition createNode (id : string) (opts : Opts.t) : M unit :=
  let el := NodeEl id (Opts.type opts) (Opts.title opts)
              (orElse (Opts.subtitle opts) "") (Opts.x opts) (Opts.y opts) in
  modify (appendChild el) ;;
  let rect := measure el in
  modify (setBox id (NodeBBox.mk (Opts.x opts) (Opts.y opts) (fst rect) (snd rect) el)).

(** The callback of [branches.forEach]. *)
Definition branchBody (splitId : string) (cursorY : number)
    (br : Branch) (i : nat) : M unit :=
  match Branch_steps br !! 0%nat with
  | None => throw (TypeError "Cannot read properties of undefined (reading 'action')")
  | Some first =>
      let action_ := match first with ActionStep a => Some a | _ => None end in
      let id := orElse (Action.id <$> action_) (branchFallbackId i) in
      let y := (cursorY + index i * gapY)%num in
      match action_ with
      | None => throw (TypeError "Cannot read properties of undefined (reading 'label')")
      | Some a =>
          let baseX := (originX + columnWidth)%num in
          createNode id
            (Opts.mk (Action.label a)
                     (Some (toUpperCase (orElse (Action.provider a) "")))
                     action (baseX + index i * ofZ 0)%num y) ;;
          let* from := boxOf splitId in
          let* to := boxOf id in
          let d := pathBetween from to (ofZ 70) in
          let* wire := addWire d in
          let mid := bezierMidpoint d in
          labelAt mid (Branch_label br)
      end
  end.

(** The callback of [step.sequential.forEach]; [prevId] is the variable
    the callback reads and assigns, and is returned for the next call. *)
Definition sequentialBody (cursorY : number) (prevId : option string)
    (a : Inline.t) (idx : nat) : M (option string) :=
  let id := sequentialId idx (Inline.tool_name a) in
  createNode id
    (Opts.mk (orElse (Inline.label a) (Inline.tool_name a))
             (Some (toUpperCase (orElse (Inline.call_type a) "")))
             action originX (cursorY + index idx * ofZ 120)%num) ;;
  (match prevId with
   | Some p =>
       if truthy p then
         let* from := boxOf p in
         let* to := boxOf id in
         let d := pathBetween from to (ofZ 60) in
         let* wire := addWire d in ret tt
       else ret tt
   | None => ret tt
   end) ;;
  ret (Some id).

Fixpoint sequentialLoop (cursorY : number) (prevId : option string)
    (idx : nat) (entries : list Inline.t) : M unit :=
  match entries with
  | [] => ret tt
  | a :: rest =>
      let* prevId' := sequentialBody cursorY prevId a idx in
      sequentialLoop cursorY prevId' (S idx) rest
  end.

(** The body of [for (const step of plan.steps)]; returns the new [cursorY]. *)
Definition stepBody (cursorY : number) (step : Step) : M number :=
  match step with
  | SplitStep id label branches =>
      createNode id (Opts.mk label None decision originX cursorY) ;;
      forEach (branchBody id cursorY) branches ;;
      ret (cursorY + ((index (length branches) - ofZ 1) * gapY + ofZ 200))%num
  | SequentialStep sequential =>
      sequentialLoop cursorY None 0 sequential ;;
      ret (cursorY + (index (length sequential) * ofZ 120 + ofZ 40))%num
  | ActionStep _ => ret cursorY
  end.

Fixpoint stepsLoop (cursorY : number) (ss : list Step) : M number :=
  match ss with
  | [] => ret cursorY
  | step :: rest =>
      let* cursorY' := stepBody cursorY step in
      stepsLoop cursorY' rest
  end.

Definition render (plan : Plan) : M unit :=
  modify clearAll ;;
  let* cursorY := stepsLoop originY (steps plan) in
  let* content := gets (fun wd => canvasRect (canvas wd)) in
  modify (setViewBox ("0 0 " +:+ ToString (fst content) +:+ " " +:+ ToString (snd content))).

End Renderer.

Definition exec {A} (c : M A) (wd : World) : World := snd (c wd).
Definition outcome {A} (c : M A) (wd : World) : Completion A := fst (c wd).

(** * Specification

    The definitions in which the properties are stated. *)

Module Router.

(** The anchors and the curve, in the words of the specification. *)
Definition rightMiddle (b : NodeBBox.t) : Point.t :=
  Point.mk (NodeBBox.x b + NodeBBox.w b)%num (NodeBBox.y b + NodeBBox.h b / ofZ 2)%num.

Definition leftMiddle (b : NodeBBox.t) : Point.t :=
  Point.mk (NodeBBox.x b) (NodeBBox.y b + NodeBBox.h b / ofZ 2)%num.

Record Cubic : Type := mkCubic { p0 : Point.t; p1 : Point.t; p2 : Point.t; p3 : Point.t }.

Definition routeCurve (fromBox toBox : NodeBBox.t) (horizontalOffset : number) : Cubic :=
  let a1 := rightMiddle fromBox in
  let a2 := leftMiddle toBox in
  mkCubic a1
    (Point.mk (Point.x a1 + horizontalOffset)%num (Point.y a1))
    (Point.mk (Point.x a2 - horizontalOffset)%num (Point.y a2))
    a2.

(** The path text of a cubic: [M p0 C p1, p2, p3]. *)
Definition pointText (p : Point.t) : string :=
  ToString (Point.x p) +:+ " " +:+ ToString (Point.y p).

Definition describe (c : Cubic) : string :=
  "M " +:+ pointText (p0 c) +:+ " C " +:+ pointText (p1 c) +:+
  ", " +:+ pointText (p2 c) +:+ ", " +:+ pointText (p3 c).

(** The eight numbers of a cubic, in the order of its path text. *)
Definition coordinates (c : Cubic) : list number :=
  [Point.x (p0 c); Point.y (p0 c); Point.x (p1 c); Point.y (p1 c);
   Point.x (p2 c); Point.y (p2 c); Point.x (p3 c); Point.y (p3 c)].

(** De Casteljau subdivision at [t = 1/2], in the words of the
    specification: four points to three, to two, to one. *)
Definition halfway (a b : Point.t) : Point.t :=
  Point.mk ((Point.x a + Point.x b) / ofZ 2)%num ((Point.y a + Point.y b) / ofZ 2)%num.

Definition deCasteljauHalf (c : Cubic) : Point.t :=
  let q0 := halfway (p0 c) (p1 c) in
  let q1 := halfway (p1 c) (p2 c) in
  let q2 := halfway (p2 c) (p3 c) in
  let r0 := halfway q0 q1 in
  let r1 := halfway q1 q2 in
  halfway r0 r1.

(** The cubic Bezier polynomial in one coordinate. *)
Definition bernstein (t a b c e : Qc) : Qc :=
  let three := (1 + 1 + 1)%Qc in
  ((1 - t) * (1 - t) * (1 - t) * a + three * ((1 - t) * (1 - t) * t) * b
   + three * ((1 - t) * t * t) * c + t * t * t * e)%Qc.

Definition half : Qc := (1 / 2)%Qc.

Definition boxA (e : Element) : NodeBBox.t :=
  NodeBBox.mk (ofZ 0) (ofZ 0) (ofZ 100) (ofZ 40) e.
Definition boxB (e : Element) : NodeBBox.t :=
  NodeBBox.mk (ofZ 300) (ofZ 100) (ofZ 100) (ofZ 40) e.

End Router.

Import Router.

Fixpoint digitsOnly (s : string) : bool :=
  match s with
  | EmptyString => true
  | String c s' => is_digit c && digitsOnly s'
  end.

(** The layout in the words of the specification. *)
Module Layout.

Definition rowHeight : number := ofZ 120.
Definition blockGap : number := ofZ 40.
Definition branchGap : number := ofZ 140.
Definition verticalPad : number := ofZ 200.

Definition isNode (e : Element) : bool :=
  match e with NodeEl _ _ _ _ _ _ => true | _ => false end.

Definition nodesOf (els : list Element) : list Element := filter (fun e => isNode e) els.

Definition labelText (e : Element) : option string :=
  match e with LabelEl text _ _ => Some text | _ => None end.

Definition labelsOf (els : list Element) : list string := omap labelText els.

Definition leftOf (e : Element) : option number :=
  match e with
  | NodeEl _ _ _ _ x _ | LabelEl _ x _ => Some x
  | OtherEl _ _ => None
  end.

Definition topOf (e : Element) : option number :=
  match e with
  | NodeEl _ _ _ _ _ y | LabelEl _ _ y => Some y
  | OtherEl _ _ => None
  end.

(** The node of the entry at position [idx] of a sequential block. *)
Definition inlineNode (cursorY : number) (idx : nat) (a : Inline.t) : Element :=
  NodeEl (sequentialId idx (Inline.tool_name a)) action
    (orElse (Inline.label a) (Inline.tool_name a))
    (toUpperCase (orElse (Inline.call_type a) ""))
    originX (cursorY + index idx * rowHeight)%num.

(** One curve from each box to the next one. *)
Definition links (boxes : list NodeBBox.t) : list SvgPath :=
  zip_with (fun p b => mkPath (pathBetween p b (ofZ 60))) boxes (tail boxes).

(** The action a branch is drawn as: its first step, when that is an action. *)
Definition firstAction (br : Branch) : option Action.t :=
  match Branch_steps br !! 0%nat with
  | Some (ActionStep a) => Some a
  | _ => None
  end.

Definition decisionNode (cursorY : number) (id label : string) : Element :=
  NodeEl id decision label "" originX cursorY.

(** The node of the branch at index [i], whose first step is the action [a]. *)
Definition branchNode (cursorY : number) (i : nat) (a : Action.t) : Element :=
  NodeEl (orElse (Some (Action.id a)) (branchFallbackId i)) action
    (Action.label a)
    (toUpperCase (orElse (Action.provider a) ""))
    (originX + columnWidth)%num (cursorY + index i * branchGap)%num.

Section Measured.

Variable measure : Element -> number * number.

(** The box that [createNode] records for a node element. *)
Definition boxed (e : Element) (x y : number) : NodeBBox.t :=
  NodeBBox.mk x y (fst (measure e)) (snd (measure e)) e.

Definition inlineBox (cursorY : number) (idx : nat) (a : Inline.t) : NodeBBox.t :=
  boxed (inlineNode cursorY idx a) originX (cursorY + index idx * rowHeight)%num.

End Measured.

End Layout.

Import Layout.

(** The plans the specification admits: every branch of every split begins
    with an action. *)
Definition branchesDrawable (step : Step) : Prop :=
  match step with
  | SplitStep _ _ branches => Forall (fun br => is_Some (firstAction br)) branches
  | _ => True
  end.

Definition drawable (plan : Plan) : Prop := Forall branchesDrawable (steps plan).

Definition prevKnown (prev : option (string * NodeBBox.t)) (idx : nat) (wd : World) : Prop :=
  match prev with
  | Some (p, pb) =>
      nodePositions wd !! p = Some pb
      /\ exists (k : nat) (t : string), p = sequentialId k t /\ (k < idx)%nat
  | None => True
  end.

Definition grows (wd wd' : World) : Prop :=
  exists news : list Element,
    canvas wd' = (canvas wd ++ news)%list
    /\ Forall (fun e => isNodeOrLabel e = true) news.

Definition growing (A : Type) (c : M A) : Prop := forall wd, grows wd (snd (c wd)).

Definition withViewBox (v : option string) (wd : World) : World :=
  mkWorld (canvas wd) (svg wd) (nodePositions wd) v.

Definition framed (A : Type) (c : M A) : Prop :=
  forall (v : option string) (wd : World),
    c (withViewBox v wd) = (fst (c wd), withViewBox v (snd (c wd))).

(** An element that is no node or label and holds none at any depth. *)
Fixpoint unmarked (e : Element) : bool :=
  match e with
  | OtherEl _ children => forallb unmarked children
  | _ => false
  end.

(** Induction on an element with its descendants. *)
Section ElementInduction.

Variable P : Element -> Prop.

Hypothesis P_node : forall id ty t s x y, P (NodeEl id ty t s x y).
Hypothesis P_label : forall text x y, P (LabelEl text x y).
Hypothesis P_other :
  forall markup children, Forall P children -> P (OtherEl markup children).

Fixpoint Element_nested_ind (e : Element) : P e :=
  match e with
  | NodeEl id ty t s x y => P_node id ty t s x y
  | LabelEl text x y => P_label text x y
  | OtherEl markup children =>
      P_other markup children
        ((fix all (l : list Element) : Forall P l :=
            match l with
            | [] => List.Forall_nil P
            | e' :: l' => List.Forall_cons P e' l' (Element_nested_ind e') (all l')
            end) children)
  end.

End ElementInduction.

Definition viewBoxText (content : number * number) : string :=
  "0 0 " +:+ ToString (fst content) +:+ " " +:+ ToString (snd content).

Section Registry.

Variable measure : Element -> number * number.

(** What [createNode] does to the mapping for a node: the entry of its
    identifier is set, whether or not there was one. *)
Definition register (m : gmap string NodeBBox.t) (e : Element) : gmap string NodeBBox.t :=
  match e with
  | NodeEl id _ _ _ x y => <[id := boxed measure e x y]> m
  | _ => m
  end.

(** The mapping that a canvas stands for: its nodes registered in the
    order they were appended. *)
Definition registry (els : list Element) : gmap string NodeBBox.t :=
  foldl register ∅ els.

Definition registered (wd : World) : Prop :=
  nodePositions wd = registry (canvas wd).

Definition keeps (A : Type) (c : M A) : Prop :=
  forall wd, registered wd -> registered (snd (c wd)).

End Registry.

(** Two blocks whose first entries use the same tool: both nodes are keyed
    [seq_0_PING]. *)
Definition collidingPlan : Plan :=
  mkPlan [ SequentialStep [Inline.mk None None "PING" None None];
           SequentialStep [Inline.mk (Some "again") None "PING" None None] ].

Definition blankPage : World := mkWorld [] [] ∅ None.

Definition fixedSize (e : Element) : number * number := (ofZ 100, ofZ 40).
Definition fixedBounds (els : list Element) : number * number := (ofZ 1000, ofZ 800).

(** Two boxes 10^21 units apart, whose anchors print in exponent notation. *)
Definition wideBox : NodeBBox.t :=
  NodeBBox.mk (ofZ 0) (ofZ 0) (ofZ (10 ^ 21)) (ofZ 40) (OtherEl "" []).
Definition farBox : NodeBBox.t :=
  NodeBBox.mk (ofZ (3 * 10 ^ 21)) (ofZ 100) (ofZ 100) (ofZ 40) (OtherEl "" []).

Definition exampleActions : list Action.t :=
  [ Action.mk "add_to_channel" (Some "slack") "Add to channel"
      (Some "SLACK_INVITE_TO_CHANNEL")
      (Some (JObject [mkField "channel" (JString "managers")]));
    Action.mk "update_profile" (Some "slack") "Update profile"
      (Some "SLACK_UPDATE_PROFILE")
      (Some (JObject [mkField "title" (JString "IC")])) ].

Definition threeWay : list Branch :=
  [ mkBranch "low" [ActionStep (Action.mk "notify" None "Notify" None None)];
    mkBranch "mid" [ActionStep (Action.mk "review" (Some "jira") "Review" None None);
                    SequentialStep []];
    mkBranch "high" [ActionStep (Action.mk "" None "Escalate" None None)] ].

Definition threeWayActions : list Action.t :=
  [ Action.mk "notify" None "Notify" None None;
    Action.mk "review" (Some "jira") "Review" None None;
    Action.mk "" None "Escalate" None None ].

(** ** What a plan draws *)

Global Instance branchesDrawable_dec (step : Step) : Decision (branchesDrawable step).
Proof. destruct step; cbn; apply _. Defined.

(** The plan without its top-level action steps. *)
Definition isActionStep (step : Step) : bool :=
  match step with ActionStep _ => true | _ => false end.

Definition withoutActions (plan : Plan) : Plan :=
  mkPlan (filter (fun step => negb (isActionStep step)) (steps plan)).

(** The plan with every branch cut down to its first step. *)
Definition headOnly (br : Branch) : Branch :=
  mkBranch (Branch_label br) (take 1 (Branch_steps br)).

Definition entryPointsOf (step : Step) : Step :=
  match step with
  | SplitStep id label branches => SplitStep id label (map headOnly branches)
  | _ => step
  end.

Definition entryPoints (plan : Plan) : Plan := mkPlan (map entryPointsOf (steps plan)).

(** How many nodes and wires a step is drawn with, and the labels it shows. *)
Definition nodeCount (step : Step) : nat :=
  match step with
  | ActionStep _ => 0
  | SplitStep _ _ branches => S (length branches)
  | SequentialStep sequential => length sequential
  end.

Definition wireCount (step : Step) : nat :=
  match step with
  | ActionStep _ => 0
  | SplitStep _ _ branches => length branches
  | SequentialStep sequential => length sequential - 1
  end.

Definition stepLabels (step : Step) : list string :=
  match step with
  | SplitStep _ _ branches => map Branch_label branches
  | _ => []
  end.

Definition nodeIdOf (e : Element) : option string :=
  match e with NodeEl id _ _ _ _ _ => Some id | _ => None end.

Definition nodeIds (els : list Element) : list string := omap nodeIdOf els.

Fixpoint hasDigit (s : string) : bool :=
  match s with
  | EmptyString => false
  | String c r => is_digit c || hasDigit r
  end.

(** ** What a split draws *)

(** The identifier of the node of the branch at index [i]. *)
Definition branchId (i : nat) (a : Action.t) : string :=
  orElse (Some (Action.id a)) (branchFallbackId i).

Definition branchWire (src b : NodeBBox.t) : SvgPath :=
  mkPath (pathBetween src b (ofZ 70)).

Definition branchLabel (text : string) (wire : SvgPath) : Element :=
  LabelEl text (Point.x (bezierMidpoint (d wire))) (Point.y (bezierMidpoint (d wire))).

Record Drawn : Type := mkDrawn { drawnNode : Element; drawnWire : SvgPath; drawnLabel : Element }.

Definition drawnElements (ds : list Drawn) : list Element :=
  concat (map (fun dr => [drawnNode dr; drawnLabel dr]) ds).

Section FanOut.

Variable measure : Element -> number * number.

Definition decisionBox (cursorY : number) (id label : string) : NodeBBox.t :=
  boxed measure (decisionNode cursorY id label) originX cursorY.

Definition branchBox (cursorY : number) (i : nat) (a : Action.t) : NodeBBox.t :=
  boxed measure (branchNode cursorY i a) (originX + columnWidth)%num
    (cursorY + index i * branchGap)%num.

(** The branches from index [i] on, drawn one after the other; [src] is the
    box that the mapping holds for the identifier of the split. *)
Fixpoint fanOut (splitId : string) (cursorY : number) (src : NodeBBox.t) (i : nat)
    (branches : list (Branch * Action.t)) : list Drawn :=
  match branches with
  | [] => []
  | (br, a) :: rest =>
      let b := branchBox cursorY i a in
      let src' := if decide (branchId i a = splitId) then b else src in
      let wire := branchWire src' b in
      mkDrawn (branchNode cursorY i a) wire (branchLabel (Branch_label br) wire)
      :: fanOut splitId cursorY src' (S i) rest
  end.

End FanOut.

Definition twoWay : list Branch :=
  [ mkBranch "yes" [ActionStep (Action.mk "approve" None "Approve" None None)];
    mkBranch "no" [ActionStep (Action.mk "gate" None "Reject" None None)] ].

Definition twoWayActions : list Action.t :=
  [ Action.mk "approve" None "Approve" None None;
    Action.mk "gate" None "Reject" None None ].

(** ** Where the nodes of a plan are placed *)

Definition placeOf (e : Element) : option (number * number) :=
  match e with NodeEl _ _ _ _ x y => Some (x, y) | _ => None end.

Definition nodePlaces (els : list Element) : list (number * number) := omap placeOf els.

Definition toPlace (p : Z * Z) : number * number := (ofZ (fst p), ofZ (snd p)).

(** By how much a step moves the cursor. *)
Definition advance (step : Step) : Z :=
  match step with
  | ActionStep _ => 0
  | SplitStep _ _ branches => (Z.of_nat (length branches) - 1) * 140 + 200
  | SequentialStep sequential => Z.of_nat (length sequential) * 120 + 40
  end.

(** The places of the nodes of a step visited with the cursor at [z]. *)
Definition stepPlaces (z : Z) (step : Step) : list (Z * Z) :=
  match step with
  | ActionStep _ => []
  | SplitStep _ _ branches =>
      (140, z) :: ((fun i => (460, z + 140 * Z.of_nat i)) <$> seq 0 (length branches))
  | SequentialStep sequential =>
      (fun i => (140, z + 120 * Z.of_nat i)) <$> seq 0 (length sequential)
  end.

Fixpoint planPlaces (z : Z) (ss : list Step) : list (Z * Z) :=
  match ss with
  | [] => []
  | step :: rest => (stepPlaces z step ++ planPlaces (z + advance step) rest)%list
  end.

(** ** Integers as text *)

(** The decimal text of an integer: a minus sign for a negative one, then
    the digits of its magnitude. *)
Definition intText (z : Z) : string :=
  if z <? 0 then String minus_char (pretty (Z.to_N (- z))) else pretty (Z.to_N z).

(** What may follow the text of a number in a path: nothing, or a character
    that is neither a digit nor a dot. *)
Definition endsNumber (rest : string) : Prop :=
  match rest with
  | EmptyString => True
  | String c _ => is_digit c = false /\ c <> dot_char
  end.

(** Integers that [ToString] writes without an exponent. *)
Definition plain (z : Z) : Prop := - 10 ^ 21 < z < 10 ^ 21.

(** ** The event handlers *)

(** What the browser reports while an event is handled. *)
Record Sizes : Type := mkSizes {
  nodeSize : Element -> number * number;
  canvasSize : list Element -> number * number
}.

Inductive Event : Type := DOMContentLoaded | Resize.

(** The page and the number of [resize] listeners that have been added to
    the window. *)
Record Browser : Type := mkBrowser { page : World; resizeListeners : nat }.

(** The listener of [DOMContentLoaded]: [render(example)], then the
    registration of a new [resize] listener. *)
Definition onContentLoaded (sz : Sizes) (b : Browser) : Browser :=
  match render (nodeSize sz) (canvasSize sz) example (page b) with
  | (Normal _, wd) => mkBrowser wd (S (resizeListeners b))
  | (Throw _, wd) => mkBrowser wd (resizeListeners b)
  end.

(** A [resize] event: every registered listener calls [render(example)]. *)
Definition onResize (sz : Sizes) (b : Browser) : Browser :=
  mkBrowser
    (Nat.iter (resizeListeners b) (exec (render (nodeSize sz) (canvasSize sz) example)) (page b))
    (resizeListeners b).

Definition dispatch (b : Browser) (ev : Event * Sizes) : Browser :=
  match fst ev with
  | DOMContentLoaded => onContentLoaded (snd ev) b
  | Resize => onResize (snd ev) b
  end.

Definition handleAll (b : Browser) (evs : list (Event * Sizes)) : Browser :=
  foldl dispatch b evs.

(** * The router in the arithmetic of the runtime

    The numbers of the program are IEEE 754 doubles.  The layout above adds
    and multiplies small integers, which doubles do exactly; the router is
    given any boxes and any offset, and its sums, differences and halvings
    round to the nearest double.  [pathBetween] and [bezierMidpoint] are
    therefore embedded a second time, with [spec_float] at precision 53 and
    maximal exponent 1024 for [number]: the properties of the two functions
    that depend on rounding, on infinities or on the text of a double are
    stated on this embedding. *)

Module Binary64.

Definition prec : Z := 53.
Definition emax : Z := 1024.

Definition double : Type := spec_float.

Global Instance double_eq_dec : EqDecision double.
Proof. solve_decision. Defined.

Definition NaN : double := S754_nan.

(** [a + b], [a - b] and [a / b]: the exact result rounded to the nearest
    double, ties to even. *)
Definition add : double -> double -> double := SFadd prec emax.
Definition sub : double -> double -> double := SFsub prec emax.
Definition div : double -> double -> double := SFdiv prec emax.

(** The double nearest to the fraction [a / b].  [SFdiv] divides the exact
    values of its operands, whatever the size of their mantissas, and
    rounds once. *)
Definition nearest (a b : positive) : double :=
  div (S754_finite false a 0) (S754_finite false b 0).

Definition ofZ (z : Z) : double := binary_normalize prec emax z 0 false.

Definition ToNumber (v : option double) : double :=
  match v with
  | Some n => n
  | None => NaN
  end.

(** [Number(tok)] for the text of a match: the double nearest to the
    decimal it denotes, an infinity when that is beyond the doubles.  (For
    a numeral of more than twenty significant digits the standard also
    allows the double nearest to its first twenty digits.) *)
Definition Number (t : token) : double :=
  let mag := match digits_val 0 (tok_int t ++ tok_frac t) with
             | Zpos p => nearest p (Z.to_pos (10 ^ Z.of_nat (length (tok_frac t))))
             | _ => S754_zero false
             end in
  if tok_neg t then SFopp mag else mag.

(** [d.match(/-?\d+(\.\d+)?/g)?.map(Number) || []] *)
Definition matchNumbers (d : string) : list double :=
  map Number (matchAll 0 d).

(** *** [Number::toString]

    For a positive finite double [v], the digits [s], their number [k] and
    the exponent [n] are such that [s * 10^(n-k)] reads back as [v], with
    [k] as small as possible and, among the candidates of that length, [s]
    the one nearest to [v]. *)

(** The value of the finite double with mantissa [m] and exponent [e], as
    a fraction. *)
Definition fraction (m : positive) (e : Z) : Z * Z :=
  if 0 <=? e then (Zpos m * 2 ^ e, 1) else (Zpos m, 2 ^ (- e)).

Fixpoint leadingZeros (fuel : nat) (a b : Z) : Z :=
  match fuel with
  | O => 0
  | S fuel' => if b <=? 10 * a then 0 else 1 + leadingZeros fuel' (10 * a) b
  end.

(** The [n] with [10^(n-1) <= a / b < 10^n]; the least positive double is
    above [10^-324]. *)
Definition decade (a b : Z) : Z :=
  if b <=? a then Z.of_nat (length (decDigits (a / b)))
  else - leadingZeros 400 a b.

(** The double that the decimal [s * 10^p] denotes. *)
Definition readBack (s p : Z) : double :=
  match s with
  | Zpos q => if 0 <=? p then nearest (q * Z.to_pos (10 ^ p)) 1
              else nearest q (Z.to_pos (10 ^ (- p)))
  | _ => S754_zero false
  end.

(** The search for the shortest digits, from [k] digits on: with [k]
    digits the two candidates are the decimals next to [a / b] on either
    side.  Seventeen digits always suffice. *)
Fixpoint shortest (fuel : nat) (k : Z) (v : double) (a b n : Z) : Z * Z :=
  let p := n - k in
  let '(a', b') := if 0 <=? p then (a, b * 10 ^ p) else (a * 10 ^ (- p), b) in
  let lo := a' / b' in
  let r := a' mod b' in
  let hi := lo + 1 in
  let okLo := bool_decide (readBack lo p = v) in
  let okHi := bool_decide (readBack hi p = v) in
  match fuel with
  | O => (lo, p)
  | S fuel' =>
      if okLo && okHi then
        (if 2 * r <? b' then lo else if b' <? 2 * r then hi
         else if Z.even lo then lo else hi, p)
      else if okLo then (lo, p)
      else if okHi then (hi, p)
      else shortest fuel' (k + 1) v a b n
  end.

Definition positiveToString (m : positive) (e : Z) : list ascii :=
  let '(a, b) := fraction m e in
  let '(s, p) := shortest 17 1 (S754_finite false m e) a b (decade a b) in
  let ds := decDigits s in
  layoutDigits (stripTrailingZeros ds) (p + Z.of_nat (length ds)).

(** [`${v}`] for a number [v]. *)
Definition ToString (v : double) : string :=
  match v with
  | S754_nan => "NaN"
  | S754_zero _ => "0"
  | S754_infinity s => if s then "-Infinity" else "Infinity"
  | S754_finite s m e =>
      if s then string_of_list_ascii (minus_char :: positiveToString m e)
      else string_of_list_ascii (positiveToString m e)
  end.

(** *** The two functions of the router *)

(** The numbers of a [NodeBBox]. *)
Module Box.
Record t : Type := mk { x : double; y : double; w : double; h : double }.
End Box.

Module Point.
Record t : Type := mk { x : double; y : double }.
End Point.

Definition pathBetween (from to : Box.t) (dx : double) : string :=
  let x1 := add (Box.x from) (Box.w from) in
  let y1 := add (Box.y from) (div (Box.h from) (ofZ 2)) in
  let x2 := Box.x to in
  let y2 := add (Box.y to) (div (Box.h to) (ofZ 2)) in
  let cx1 := add x1 dx in
  let cx2 := sub x2 dx in
  "M " +:+ ToString x1 +:+ " " +:+ ToString y1 +:+
  " C " +:+ ToString cx1 +:+ " " +:+ ToString y1 +:+
  ", " +:+ ToString cx2 +:+ " " +:+ ToString y2 +:+
  ", " +:+ ToString x2 +:+ " " +:+ ToString y2.

Definition bezierMidpoint (d : string) : Point.t :=
  let nums := matchNumbers d in
  let at_ (i : nat) := ToNumber (nums !! i) in
  let x1 := at_ 0%nat in let y1 := at_ 1%nat in
  let cx1 := at_ 2%nat in let cy1 := at_ 3%nat in
  let cx2 := at_ 4%nat in let cy2 := at_ 5%nat in
  let x2 := at_ 6%nat in let y2 := at_ 7%nat in
  let two := ofZ 2 in
  let q0x := div (add x1 cx1) two in let q0y := div (add y1 cy1) two in
  let q1x := div (add cx1 cx2) two in let q1y := div (add cy1 cy2) two in
  let q2x := div (add cx2 x2) two in let q2y := div (add cy2 y2) two in
  let r0x := div (add q0x q1x) two in let r0y := div (add q0y q1y) two in
  let r1x := div (add q1x q2x) two in let r1y := div (add q1y q2y) two in
  Point.mk (div (add r0x r1x) two) (div (add r0y r1y) two).

End Binary64.

(** ** The router over doubles, in the words of the specification *)

Module Router64.

Import Binary64.

Definition rightMiddle (b : Box.t) : Point.t :=
  Point.mk (add (Box.x b) (Box.w b)) (add (Box.y b) (div (Box.h b) (ofZ 2))).

Definition leftMiddle (b : Box.t) : Point.t :=
  Point.mk (Box.x b) (add (Box.y b) (div (Box.h b) (ofZ 2))).

Record Cubic : Type := mkCubic { p0 : Point.t; p1 : Point.t; p2 : Point.t; p3 : Point.t }.

Definition routeCurve (fromBox toBox : Box.t) (horizontalOffset : double) : Cubic :=
  let a1 := rightMiddle fromBox in
  let a2 := leftMiddle toBox in
  mkCubic a1
    (Point.mk (add (Point.x a1) horizontalOffset) (Point.y a1))
    (Point.mk (sub (Point.x a2) horizontalOffset) (Point.y a2))
    a2.

(** The eight numbers of a cubic, in the order of its path text. *)
Definition coordinates (c : Cubic) : list double :=
  [Point.x (p0 c); Point.y (p0 c); Point.x (p1 c); Point.y (p1 c);
   Point.x (p2 c); Point.y (p2 c); Point.x (p3 c); Point.y (p3 c)].

(** De Casteljau subdivision at [t = 1/2]: four points to three, to two,
    to one, each average computed as the program computes it. *)
Definition mean (a b : double) : double := div (add a b) (ofZ 2).

Definition halfway (a b : Point.t) : Point.t :=
  Point.mk (mean (Point.x a) (Point.x b)) (mean (Point.y a) (Point.y b)).

Definition deCasteljauHalf (c : Cubic) : Point.t :=
  let q0 := halfway (p0 c) (p1 c) in
  let q1 := halfway (p1 c) (p2 c) in
  let q2 := halfway (p2 c) (p3 c) in
  let r0 := halfway q0 q1 in
  let r1 := halfway q1 q2 in
  halfway r0 r1.

(** *** The rationals that doubles stand for *)

Definition valueOf (v : double) : option Qc :=
  match v with
  | S754_zero _ => Some (Qc_of_Z 0)
  | S754_finite s m e =>
      let '(a, b) := fraction m e in
      let q := Q2Qc (a # Z.to_pos b) in
      Some (if s then (- q)%Qc else q)
  | _ => None
  end.

Definition pointValue (p : Point.t) : option (Qc * Qc) :=
  match valueOf (Point.x p), valueOf (Point.y p) with
  | Some x, Some y => Some (x, y)
  | _, _ => None
  end.

(** The point of the cubic at parameter [t], over the rationals. *)
Definition curveAt (t : Qc) (c : Cubic) : option (Qc * Qc) :=
  match pointValue (p0 c), pointValue (p1 c), pointValue (p2 c), pointValue (p3 c) with
  | Some (x0, y0), Some (x1, y1), Some (x2, y2), Some (x3, y3) =>
      Some (bernstein t x0 x1 x2 x3, bernstein t y0 y1 y2 y3)
  | _, _, _, _ => None
  end.

(** The arithmetic mean of two points, over the rationals. *)
Definition meanOf (a b : Point.t) : option (Qc * Qc) :=
  match pointValue a, pointValue b with
  | Some (xa, ya), Some (xb, yb) =>
      Some (((xa + xb) / Qc_of_Z 2)%Qc, ((ya + yb) / Qc_of_Z 2)%Qc)
  | _, _ => None
  end.

(** *** Operations that do not round *)

Definition exactSum (a b : double) : bool :=
  match valueOf a, valueOf b, valueOf (add a b) with
  | Some x, Some y, Some z => Qc_eq_bool z (x + y)
  | _, _, _ => false
  end.

Definition exactDifference (a b : double) : bool :=
  match valueOf a, valueOf b, valueOf (sub a b) with
  | Some x, Some y, Some z => Qc_eq_bool z (x - y)
  | _, _, _ => false
  end.

Definition exactHalf (a : double) : bool :=
  match valueOf a, valueOf (div a (ofZ 2)) with
  | Some x, Some z => Qc_eq_bool z (x / Qc_of_Z 2)
  | _, _ => false
  end.

Definition exactMean (a b : double) : bool :=
  exactSum a b && exactHalf (add a b).

(** The six averages of one coordinate of the subdivision. *)
Definition exactAverages (a b c e : double) : bool :=
  let q0 := mean a b in
  let q1 := mean b c in
  let q2 := mean c e in
  let r0 := mean q0 q1 in
  let r1 := mean q1 q2 in
  exactMean a b && exactMean b c && exactMean c e
  && exactMean q0 q1 && exactMean q1 q2 && exactMean r0 r1.

Definition exactSubdivision (c : Cubic) : bool :=
  exactAverages (Point.x (p0 c)) (Point.x (p1 c)) (Point.x (p2 c)) (Point.x (p3 c))
  && exactAverages (Point.y (p0 c)) (Point.y (p1 c)) (Point.y (p2 c)) (Point.y (p3 c)).

(** The two offsets and the averages of a routed curve. *)
Definition exactRoute (fromBox toBox : Box.t) (horizontalOffset : double) : bool :=
  exactSum (Point.x (rightMiddle fromBox)) horizontalOffset
  && exactDifference (Point.x (leftMiddle toBox)) horizontalOffset
  && exactSubdivision (routeCurve fromBox toBox horizontalOffset).

End Router64.

(** The boxes A and B of the specification, and two boxes the first of
    which is 30.2 high. *)
Definition boxA64 : Binary64.Box.t :=
  Binary64.Box.mk (Binary64.ofZ 0) (Binary64.ofZ 0) (Binary64.ofZ 100) (Binary64.ofZ 40).
Definition boxB64 : Binary64.Box.t :=
  Binary64.Box.mk (Binary64.ofZ 300) (Binary64.ofZ 100) (Binary64.ofZ 100) (Binary64.ofZ 40).

Definition slimBox : Binary64.Box.t :=
  Binary64.Box.mk (Binary64.ofZ 140) (Binary64.ofZ 160) (Binary64.ofZ 100)
    (Binary64.nearest 302 10).
Definition nextBox : Binary64.Box.t :=
  Binary64.Box.mk (Binary64.ofZ 460) (Binary64.ofZ 300) (Binary64.ofZ 100) (Binary64.ofZ 30).

(** The cubic with the control points (0,0), (60,0), (240,120), (300,120),
    and the one with (0.1,0.7), (0.2,0.1), (0.7,0.2), (0.1,0.7). *)
Definition symmetricCubic : Router64.Cubic :=
  Router64.mkCubic
    (Binary64.Point.mk (Binary64.ofZ 0) (Binary64.ofZ 0))
    (Binary64.Point.mk (Binary64.ofZ 60) (Binary64.ofZ 0))
    (Binary64.Point.mk (Binary64.ofZ 240) (Binary64.ofZ 120))
    (Binary64.Point.mk (Binary64.ofZ 300) (Binary64.ofZ 120)).

Definition tenthsCubic : Router64.Cubic :=
  Router64.mkCubic
    (Binary64.Point.mk (Binary64.nearest 1 10) (Binary64.nearest 7 10))
    (Binary64.Point.mk (Binary64.nearest 2 10) (Binary64.nearest 1 10))
    (Binary64.Point.mk (Binary64.nearest 7 10) (Binary64.nearest 2 10))
    (Binary64.Point.mk (Binary64.nearest 1 10) (Binary64.nearest 7 10)).

(** A numeral of 310 digits, beyond the doubles, and a path text whose
    first two abscissas are that numeral and its opposite. *)
Definition tooLong : string := "1" +:+ string_of_list_ascii (zeros 309).

Definition overflowingPath : string :=
  "M " +:+ tooLong +:+ " 0 C -" +:+ tooLong +:+ " 0, 0 0, 0 0".


(** ** The entries of the node-box mapping *)

(** [nodePositions] is a plain object.  The key [__proto__] is the one key
    for which [nodePositions[id] = box] adds no entry to it: the assignment
    makes the box the prototype of the object, and [nodePositions[id]]
    reads the box back from there.  The finite map holds what
    [nodePositions[id]] reads; the entries of the object are its keys other
    than [__proto__]. *)
Definition protoKey : string := "__proto__".

Definition ownKeys (m : gmap string NodeBBox.t) : gset string := dom m ∖ {[protoKey]}.

Definition protoPlan : Plan := mkPlan [SplitStep "__proto__" "Prototype?" []].

(** ** Integers that doubles add and halve exactly *)

(** Below 2^50 in magnitude the sum of three such integers and its half,
    quarter and eighth are doubles: the arithmetic of the router on them
    does not round. *)
Definition small (z : Z) : Prop := - 2 ^ 50 < z < 2 ^ 50.

(** * Properties *)

(** ** Closed numerals *)

Lemma Fin_eq (a b : Qc) : Qeq_bool a b = true -> Fin a = Fin b.
Proof.
  intros H. f_equal. apply Qc_is_canon. by apply Qeq_bool_iff.
Qed.

(** Closed equations between structures that hold numbers: evaluate both
    sides, then compare the numbers as fractions. *)
Ltac closed_num :=
  vm_compute;
  repeat match goal with
         | |- Fin _ = Fin _ => apply Fin_eq; vm_compute; reflexivity
         | |- _ => reflexivity
         | |- _ => progress f_equal
         end.

(** ** The text of numbers *)

Example matchAll_takes_leftmost_matches :
  matchAll 0 "1.2.3 5. --7 1e+21 .5 -a"
  = [ Token false ["1"%char] ["2"%char]; Token false ["3"%char] [];
      Token false ["5"%char] []; Token true ["7"%char] [];
      Token false ["1"%char] []; Token false ["2"%char; "1"%char] [];
      Token false ["5"%char] [] ].
Proof. reflexivity. Qed.

Example ToString_samples :
  map ToString [Fin (Q2Qc (41 # 2)); Fin (Q2Qc (1 # 1000000)); Fin (Q2Qc (1 # 10000000));
                Fin (Q2Qc (-5 # 8)); ofZ (10 ^ 21); ofZ (10 ^ 20); ofZ 0; NaN; ofZ (-160)]
  = ["20.5"; "0.000001"; "1e-7"; "-0.625"; "1e+21"; "100000000000000000000";
     "0"; "NaN"; "-160"].
Proof. vm_compute. reflexivity. Qed.

Example matchNumbers_of_path :
  matchNumbers "M 240 180.5 C 310 180.5, 390 -20, 460 -20"
  = [ofZ 240; Fin (Q2Qc (361 # 2)); ofZ 310; Fin (Q2Qc (361 # 2));
     ofZ 390; ofZ (-20); ofZ 460; ofZ (-20)].
Proof. closed_num. Qed.

(** ** The wire router *)

Lemma string_app_assoc (a b c : string) : (a +:+ b) +:+ c = a +:+ (b +:+ c).
Proof.
  induction a as [|ch a IH]; [done |].
  change (String ch ((a +:+ b) +:+ c) = String ch (a +:+ (b +:+ c))).
  by rewrite IH.
Qed.

(** C2: the curve that [pathBetween] writes is the routed cubic: it starts
    at the right-middle anchor of the source box, ends at the left-middle
    anchor of the target box, and its control points are the anchors moved
    by the offset along x; for the boxes A and B of the specification and
    offset 60 it runs from (100,20) to (300,120). *)
Theorem pathBetween_routes_between_anchors :
  (forall (fromBox toBox : NodeBBox.t) (offset : number),
      let c := routeCurve fromBox toBox offset in
      pathBetween fromBox toBox offset = describe c
      /\ p0 c = Point.mk (NodeBBox.x fromBox + NodeBBox.w fromBox)%num
                         (NodeBBox.y fromBox + NodeBBox.h fromBox / ofZ 2)%num
      /\ p3 c = Point.mk (NodeBBox.x toBox)
                         (NodeBBox.y toBox + NodeBBox.h toBox / ofZ 2)%num
      /\ p1 c = Point.mk (Point.x (p0 c) + offset)%num (Point.y (p0 c))
      /\ p2 c = Point.mk (Point.x (p3 c) - offset)%num (Point.y (p3 c)))
  /\ (forall e e' : Element,
         pathBetween (boxA e) (boxB e') (ofZ 60) = "M 100 20 C 160 20, 240 120, 300 120"
         /\ matchNumbers (pathBetween (boxA e) (boxB e') (ofZ 60))
            = map ofZ [100; 20; 160; 20; 240; 120; 300; 120]
         /\ p0 (routeCurve (boxA e) (boxB e') (ofZ 60)) = Point.mk (ofZ 100) (ofZ 20)
         /\ p3 (routeCurve (boxA e) (boxB e') (ofZ 60)) = Point.mk (ofZ 300) (ofZ 120)).
Proof.
  split.
  - intros fromBox toBox offset c. repeat split.
    unfold pathBetween, describe, pointText, c, routeCurve, rightMiddle, leftMiddle.
    cbn [p0 p1 p2 p3 Point.x Point.y].
    by rewrite !string_app_assoc.
  - intros e e'.
    assert (Hd : pathBetween (boxA e) (boxB e') (ofZ 60)
                 = "M 100 20 C 160 20, 240 120, 300 120") by (vm_compute; reflexivity).
    rewrite Hd. repeat split.
    + closed_num.
    + closed_num.
    + closed_num.
Qed.

(** *** Arithmetic of [number] *)

Lemma add_NaN_r (a : number) : (a + NaN)%num = NaN.
Proof. by destruct a. Qed.

Lemma two_is_one_plus_one : Qc_of_Z 2 = (1 + 1)%Qc.
Proof. apply Qc_is_canon. reflexivity. Qed.

Lemma mean_of_means (a o e : Qc) :
  ((((a + (a + o)) / Qc_of_Z 2 + ((a + o) + (e - o)) / Qc_of_Z 2) / Qc_of_Z 2
    + (((a + o) + (e - o)) / Qc_of_Z 2 + ((e - o) + e) / Qc_of_Z 2) / Qc_of_Z 2)
   / Qc_of_Z 2 = (a + e) / Qc_of_Z 2)%Qc.
Proof. rewrite two_is_one_plus_one. field. discriminate. Qed.

Lemma mean_of_means_flat (a e : Qc) :
  ((((a + a) / Qc_of_Z 2 + (a + e) / Qc_of_Z 2) / Qc_of_Z 2
    + ((a + e) / Qc_of_Z 2 + (e + e) / Qc_of_Z 2) / Qc_of_Z 2)
   / Qc_of_Z 2 = (a + e) / Qc_of_Z 2)%Qc.
Proof. rewrite two_is_one_plus_one. field. discriminate. Qed.

Lemma deCasteljau_bernstein (a b c e : Qc) :
  ((((a + b) / Qc_of_Z 2 + (b + c) / Qc_of_Z 2) / Qc_of_Z 2
    + ((b + c) / Qc_of_Z 2 + (c + e) / Qc_of_Z 2) / Qc_of_Z 2)
   / Qc_of_Z 2 = bernstein half a b c e)%Qc.
Proof. unfold bernstein, half. rewrite two_is_one_plus_one. field. discriminate. Qed.

(** *** The midpoint *)

Lemma bezierMidpoint_of_coordinates (d : string) (c : Cubic) (rest : list number) :
  matchNumbers d = (coordinates c ++ rest)%list ->
  bezierMidpoint d = deCasteljauHalf c.
Proof.
  intros H. unfold bezierMidpoint. rewrite H.
  destruct c as [[? ?] [? ?] [? ?] [? ?]]. reflexivity.
Qed.

(** ** The router over doubles *)

(** *** The text of doubles *)

Example Binary64_Number_samples :
  Binary64.matchNumbers "0.1 9007199254740993 9007199254740995 -0 0.50"
  = [ S754_finite false 7205759403792794 (-56); S754_finite false 4503599627370496 1;
      S754_finite false 4503599627370498 1; S754_zero true;
      S754_finite false 4503599627370496 (-53) ]
  /\ Binary64.matchNumbers tooLong = [S754_infinity false].
Proof. split; by vm_compute. Qed.

Example Binary64_ToString_samples :
  map Binary64.ToString
    [ Binary64.add (Binary64.nearest 1 10) (Binary64.nearest 2 10);
      Binary64.add (Binary64.ofZ (2 ^ 53)) (Binary64.ofZ 1);
      Binary64.add (Binary64.ofZ 140) (Binary64.nearest 5008 100);
      Binary64.ofZ (2 ^ 64); Binary64.ofZ (10 ^ 21); Binary64.ofZ (10 ^ 23);
      Binary64.nearest 1 (10 ^ 7); Binary64.nearest 5 (10 ^ 324);
      Binary64.ofZ (-160); Binary64.nearest 1 3;
      Binary64.sub (Binary64.ofZ (10 ^ 400)) (Binary64.ofZ (10 ^ 400)) ]
  = [ "0.30000000000000004"; "9007199254740992"; "190.07999999999998";
      "18446744073709552000"; "1e+21"; "1e+23"; "1e-7"; "5e-324"; "-160";
      "0.3333333333333333"; "NaN" ].
Proof. vm_compute. reflexivity. Qed.

Example Binary64_matchNumbers_of_path :
  Binary64.matchNumbers "M 240 175.1 C 310 175.1, 390 -20, 460 -20"
  = [ Binary64.ofZ 240; Binary64.nearest 1751 10; Binary64.ofZ 310; Binary64.nearest 1751 10;
      Binary64.ofZ 390; Binary64.ofZ (-20); Binary64.ofZ 460; Binary64.ofZ (-20) ].
Proof. vm_compute. reflexivity. Qed.

(** *** The midpoint *)

Lemma Binary64_bezierMidpoint_of_coordinates
    (d : string) (c : Router64.Cubic) (rest : list Binary64.double) :
  Binary64.matchNumbers d = (Router64.coordinates c ++ rest)%list ->
  Binary64.bezierMidpoint d = Router64.deCasteljauHalf c.
Proof.
  intros H. unfold Binary64.bezierMidpoint. rewrite H.
  destruct c as [[? ?] [? ?] [? ?] [? ?]]. reflexivity.
Qed.

Lemma exactSum_value (a b : Binary64.double) :
  Router64.exactSum a b = true ->
  exists x y : Qc,
    Router64.valueOf a = Some x /\ Router64.valueOf b = Some y
    /\ Router64.valueOf (Binary64.add a b) = Some (x + y)%Qc.
Proof.
  unfold Router64.exactSum. intros H.
  destruct (Router64.valueOf a) as [x|]; [| done].
  destruct (Router64.valueOf b) as [y|]; [| done].
  destruct (Router64.valueOf (Binary64.add a b)) as [z|]; [| done].
  apply Qc_eq_bool_correct in H. subst z. by exists x, y.
Qed.

Lemma exactDifference_value (a b : Binary64.double) :
  Router64.exactDifference a b = true ->
  exists x y : Qc,
    Router64.valueOf a = Some x /\ Router64.valueOf b = Some y
    /\ Router64.valueOf (Binary64.sub a b) = Some (x - y)%Qc.
Proof.
  unfold Router64.exactDifference. intros H.
  destruct (Router64.valueOf a) as [x|]; [| done].
  destruct (Router64.valueOf b) as [y|]; [| done].
  destruct (Router64.valueOf (Binary64.sub a b)) as [z|]; [| done].
  apply Qc_eq_bool_correct in H. subst z. by exists x, y.
Qed.

Lemma exactMean_value (a b : Binary64.double) :
  Router64.exactMean a b = true ->
  exists x y : Qc,
    Router64.valueOf a = Some x /\ Router64.valueOf b = Some y
    /\ Router64.valueOf (Router64.mean a b) = Some ((x + y) / Qc_of_Z 2)%Qc.
Proof.
  unfold Router64.exactMean. intros H. apply andb_true_iff in H as [Hs Hh].
  destruct (exactSum_value a b Hs) as (x & y & Hx & Hy & Hxy).
  exists x, y. split; [done |]. split; [done |].
  unfold Router64.exactHalf in Hh. rewrite Hxy in Hh. unfold Router64.mean.
  destruct (Router64.valueOf (Binary64.div (Binary64.add a b) (Binary64.ofZ 2))) as [z|];
    [| done].
  apply Qc_eq_bool_correct in Hh. by subst z.
Qed.

(** When none of the six averages rounds, the subdivision gives the value
    of the cubic polynomial at 1/2. *)
Lemma exactAverages_value (a b c e : Binary64.double) :
  Router64.exactAverages a b c e = true ->
  exists va vb vc ve : Qc,
    Router64.valueOf a = Some va /\ Router64.valueOf b = Some vb
    /\ Router64.valueOf c = Some vc /\ Router64.valueOf e = Some ve
    /\ Router64.valueOf
         (Router64.mean (Router64.mean (Router64.mean a b) (Router64.mean b c))
                        (Router64.mean (Router64.mean b c) (Router64.mean c e)))
       = Some (bernstein half va vb vc ve).
Proof.
  unfold Router64.exactAverages. intros H.
  do 5 (apply andb_true_iff in H as [H ?]).
  repeat match goal with
         | H : Router64.exactMean _ _ = true |- _ =>
             let x := fresh "x" in let y := fresh "y" in
             destruct (exactMean_value _ _ H) as (x & y & ? & ? & ?); clear H
         end.
  repeat match goal with
         | H1 : Router64.valueOf ?v = Some ?p, H2 : Router64.valueOf ?v = Some ?q |- _ =>
             assert (q = p) by congruence; subst q; clear H2
         end.
  eexists _, _, _, _. repeat (split; [eassumption |]).
  etrans; [eassumption |]. f_equal. apply deCasteljau_bernstein.
Qed.

Lemma exactSubdivision_value (c : Router64.Cubic) :
  Router64.exactSubdivision c = true ->
  Router64.pointValue (Router64.deCasteljauHalf c) = Router64.curveAt half c.
Proof.
  unfold Router64.exactSubdivision. intros H. apply andb_true_iff in H as [Hx Hy].
  destruct (exactAverages_value _ _ _ _ Hx) as (x0 & x1 & x2 & x3 & Hx0 & Hx1 & Hx2 & Hx3 & Hmx).
  destruct (exactAverages_value _ _ _ _ Hy) as (y0 & y1 & y2 & y3 & Hy0 & Hy1 & Hy2 & Hy3 & Hmy).
  unfold Router64.curveAt, Router64.pointValue.
  rewrite Hx0, Hx1, Hx2, Hx3, Hy0, Hy1, Hy2, Hy3.
  unfold Router64.deCasteljauHalf, Router64.halfway. cbn [Binary64.Point.x Binary64.Point.y].
  by rewrite Hmx, Hmy.
Qed.

(** C3, as the program has it: when the parser recovers the eight
    control-point numbers of a cubic from its text, [bezierMidpoint]
    returns the point that De Casteljau subdivision gives (4 points to 3,
    to 2, to 1, each by pairwise averaging) with every average rounded to a
    double; it is the point of the cubic at t = 1/2 when none of the
    averages rounds, and for the control points (0,0), (60,0), (240,120),
    (300,120) it is (150,60). *)
Theorem bezierMidpoint_is_rounded_subdivision :
  (forall (d : string) (c : Router64.Cubic) (rest : list Binary64.double),
      Binary64.matchNumbers d = (Router64.coordinates c ++ rest)%list ->
      Binary64.bezierMidpoint d = Router64.deCasteljauHalf c
      /\ (Router64.exactSubdivision c = true ->
          Router64.pointValue (Binary64.bezierMidpoint d) = Router64.curveAt half c))
  /\ Binary64.bezierMidpoint "M 0 0 C 60 0, 240 120, 300 120"
     = Binary64.Point.mk (Binary64.ofZ 150) (Binary64.ofZ 60).
Proof.
  split; [| by vm_compute].
  intros d c rest H.
  rewrite (Binary64_bezierMidpoint_of_coordinates d c rest H).
  split; [reflexivity | apply exactSubdivision_value].
Qed.

Lemma bezierMidpoint_is_rounded_subdivision_witness :
  Binary64.bezierMidpoint "M 0 0 C 60 0, 240 120, 300 120"
  = Router64.deCasteljauHalf symmetricCubic
  /\ Router64.pointValue (Binary64.bezierMidpoint "M 0 0 C 60 0, 240 120, 300 120")
     = Router64.curveAt half symmetricCubic.
Proof.
  destruct (proj1 bezierMidpoint_is_rounded_subdivision
              "M 0 0 C 60 0, 240 120, 300 120" symmetricCubic []) as [H1 H2].
  - vm_compute. reflexivity.
  - split; [exact H1 |]. apply H2. vm_compute. reflexivity.
Defined.

(** The point that [bezierMidpoint] returns is not always the point of the
    cubic.  The text [M 0.1 0.7 C 0.2 0.1, 0.7 0.2, 0.1 0.7] is read as the
    eight doubles nearest to its numerals; the abscissa of the cubic with
    these control points at t = 1/2 is the double written 0.3625, and the
    abscissa returned is the double below it, 0.36249999999999993. *)
Lemma bezierMidpoint_misses_curve_point :
  Binary64.matchNumbers "M 0.1 0.7 C 0.2 0.1, 0.7 0.2, 0.1 0.7"
  = Router64.coordinates tenthsCubic
  /\ Binary64.ToString
       (Binary64.Point.x (Binary64.bezierMidpoint "M 0.1 0.7 C 0.2 0.1, 0.7 0.2, 0.1 0.7"))
     = "0.36249999999999993"
  /\ (fst <$> Router64.curveAt half tenthsCubic)
     = Router64.valueOf (Binary64.nearest 3625 10000)
  /\ Binary64.ToString (Binary64.nearest 3625 10000) = "0.3625"
  /\ Binary64.Point.x (Binary64.bezierMidpoint "M 0.1 0.7 C 0.2 0.1, 0.7 0.2, 0.1 0.7")
     <> Binary64.nearest 3625 10000
  /\ Router64.pointValue (Binary64.bezierMidpoint "M 0.1 0.7 C 0.2 0.1, 0.7 0.2, 0.1 0.7")
     <> Router64.curveAt half tenthsCubic.
Proof.
  split; [by vm_compute |]. split; [by vm_compute |].
  split; [| split; [by vm_compute |]; split; [by vm_compute |]].
  - apply (f_equal (fun q => Some q)), Qc_is_canon. by vm_compute.
  - intros H.
    apply (f_equal (fun o => match o with Some (x, _) => Some (this x) | None => None end)) in H.
    vm_compute in H. discriminate H.
Qed.

Lemma exactRoute_value (fromBox toBox : Binary64.Box.t) (offset : Binary64.double) :
  Router64.exactRoute fromBox toBox offset = true ->
  Router64.pointValue (Router64.deCasteljauHalf (Router64.routeCurve fromBox toBox offset))
  = Router64.meanOf (Router64.rightMiddle fromBox) (Router64.leftMiddle toBox).
Proof.
  unfold Router64.exactRoute. intros H.
  apply andb_true_iff in H as [H Hsub]. apply andb_true_iff in H as [Hadd Hsubtr].
  rewrite (exactSubdivision_value _ Hsub).
  destruct (exactSum_value _ _ Hadd) as (a & o & Ha & Ho & Hao).
  destruct (exactDifference_value _ _ Hsubtr) as (e & o' & He & Ho' & Heo).
  assert (o' = o) by congruence. subst o'.
  unfold Router64.exactSubdivision in Hsub. apply andb_true_iff in Hsub as [_ Hy].
  destruct (exactAverages_value _ _ _ _ Hy) as (b & b' & f & f' & Hb & _ & _ & Hf & _).
  unfold Router64.routeCurve in Hb, Hf. cbn [Router64.p0 Router64.p3] in Hb, Hf.
  unfold Router64.curveAt, Router64.meanOf, Router64.pointValue, Router64.routeCurve.
  cbn [Router64.p0 Router64.p1 Router64.p2 Router64.p3 Binary64.Point.x Binary64.Point.y].
  rewrite Ha, He, Hao, Heo, Hb, Hf. do 2 f_equal.
  - rewrite <-deCasteljau_bernstein. apply mean_of_means.
  - rewrite <-deCasteljau_bernstein. apply mean_of_means_flat.
Qed.

(** C10, as the program has it: for a curve that [pathBetween] writes and
    whose eight numbers the parser reads back, the midpoint that
    [bezierMidpoint] computes is the subdivision point of the routed cubic,
    every average rounded to a double; it is the arithmetic mean of the two
    anchors, the two offsets cancelling, when neither the two offsets nor
    the averages round. *)
Theorem routed_midpoint_is_anchor_mean_when_exact
    (fromBox toBox : Binary64.Box.t) (offset : Binary64.double) :
  Binary64.matchNumbers (Binary64.pathBetween fromBox toBox offset)
    = Router64.coordinates (Router64.routeCurve fromBox toBox offset) ->
  Binary64.bezierMidpoint (Binary64.pathBetween fromBox toBox offset)
    = Router64.deCasteljauHalf (Router64.routeCurve fromBox toBox offset)
  /\ (Router64.exactRoute fromBox toBox offset = true ->
      Router64.pointValue (Binary64.bezierMidpoint (Binary64.pathBetween fromBox toBox offset))
      = Router64.meanOf (Router64.rightMiddle fromBox) (Router64.leftMiddle toBox)).
Proof.
  intros H.
  rewrite (Binary64_bezierMidpoint_of_coordinates _
             (Router64.routeCurve fromBox toBox offset) []) by (by rewrite app_nil_r).
  split; [reflexivity | apply exactRoute_value].
Qed.

Lemma routed_midpoint_is_anchor_mean_when_exact_witness :
  Binary64.bezierMidpoint (Binary64.pathBetween boxA64 boxB64 (Binary64.ofZ 60))
  = Router64.deCasteljauHalf (Router64.routeCurve boxA64 boxB64 (Binary64.ofZ 60))
  /\ Router64.pointValue
       (Binary64.bezierMidpoint (Binary64.pathBetween boxA64 boxB64 (Binary64.ofZ 60)))
     = Router64.meanOf (Router64.rightMiddle boxA64) (Router64.leftMiddle boxB64).
Proof.
  destruct (routed_midpoint_is_anchor_mean_when_exact boxA64 boxB64 (Binary64.ofZ 60))
    as [H1 H2].
  - vm_compute. reflexivity.
  - split; [exact H1 |]. apply H2. vm_compute. reflexivity.
Defined.

(** The offsets do not always cancel.  Between the boxes (140, 160, 100 x
    30.2) and (460, 300, 100 x 30) with offset 70 the wire runs from
    (240, 175.1) to (460, 315); its text is read back number for number;
    the ordinate of the midpoint returned is 245.04999999999998, and the
    mean of the ordinates of the two anchors is 245.05, computed in doubles
    as well as exactly. *)
Lemma routed_midpoint_misses_anchor_mean :
  Binary64.pathBetween slimBox nextBox (Binary64.ofZ 70)
  = "M 240 175.1 C 310 175.1, 390 315, 460 315"
  /\ Binary64.matchNumbers (Binary64.pathBetween slimBox nextBox (Binary64.ofZ 70))
     = Router64.coordinates (Router64.routeCurve slimBox nextBox (Binary64.ofZ 70))
  /\ Binary64.ToString
       (Binary64.Point.y
          (Binary64.bezierMidpoint (Binary64.pathBetween slimBox nextBox (Binary64.ofZ 70))))
     = "245.04999999999998"
  /\ Binary64.ToString
       (Binary64.Point.y
          (Router64.halfway (Router64.rightMiddle slimBox) (Router64.leftMiddle nextBox)))
     = "245.05"
  /\ Binary64.bezierMidpoint (Binary64.pathBetween slimBox nextBox (Binary64.ofZ 70))
     <> Router64.halfway (Router64.rightMiddle slimBox) (Router64.leftMiddle nextBox)
  /\ Router64.pointValue
       (Binary64.bezierMidpoint (Binary64.pathBetween slimBox nextBox (Binary64.ofZ 70)))
     <> Router64.meanOf (Router64.rightMiddle slimBox) (Router64.leftMiddle nextBox).
Proof.
  split; [by vm_compute |]. split; [by vm_compute |]. split; [by vm_compute |].
  split; [by vm_compute |]. split; [by vm_compute |].
  intros H.
  apply (f_equal (fun o => match o with Some (_, y) => Some (this y) | None => None end)) in H.
  vm_compute in H. discriminate H.
Qed.

(** Without the round trip the midpoint is not the mean of the anchors: an
    anchor at 10^21 is written [1e+21], which is read back as 1 and 21. *)
Lemma routed_midpoint_needs_round_trip :
  pathBetween wideBox farBox (ofZ 0) = "M 1e+21 20 C 1e+21 20, 3e+21 120, 3e+21 120"
  /\ matchNumbers (pathBetween wideBox farBox (ofZ 0))
     = map ofZ [1; 21; 20; 1; 21; 20; 3; 21; 120; 3; 21; 120]
  /\ bezierMidpoint (pathBetween wideBox farBox (ofZ 0))
     = Point.mk (Fin (Q2Qc (127 # 8))) (Fin (Q2Qc (105 # 8)))
  /\ halfway (rightMiddle wideBox) (leftMiddle farBox) = Point.mk (ofZ (2 * 10 ^ 21)) (ofZ 70).
Proof.
  assert (Hd : pathBetween wideBox farBox (ofZ 0)
               = "M 1e+21 20 C 1e+21 20, 3e+21 120, 3e+21 120") by (vm_compute; reflexivity).
  rewrite Hd. split; [reflexivity |]. repeat split; closed_num.
Qed.

(** C7, as the program has it: a path text from which fewer than eight
    numbers are read does not make [bezierMidpoint] fail.  The missing
    numbers are [undefined], the y coordinate of the result is [NaN] (and
    the x coordinate too when fewer than seven numbers are read), and the
    caller goes on to place the label at that point. *)
Theorem bezierMidpoint_short_text_gives_NaN (d : string) :
  (length (matchNumbers d) < 8)%nat ->
  Point.y (bezierMidpoint d) = NaN
  /\ ((length (matchNumbers d) < 7)%nat -> bezierMidpoint d = Point.mk NaN NaN)
  /\ forall (text : string) (wd : World),
       labelAt (bezierMidpoint d) text wd
       = (Normal tt, appendChild (LabelEl text (Point.x (bezierMidpoint d)) NaN) wd).
Proof.
  intros Hlen.
  assert (Hy : Point.y (bezierMidpoint d) = NaN).
  { unfold bezierMidpoint. cbn [Point.y].
    rewrite (lookup_ge_None_2 (matchNumbers d) 7) by lia.
    cbn [ToNumber]. by rewrite !add_NaN_r. }
  split; [exact Hy |]. split.
  - intros Hlen'. unfold bezierMidpoint.
    rewrite (lookup_ge_None_2 (matchNumbers d) 7) by lia.
    rewrite (lookup_ge_None_2 (matchNumbers d) 6) by lia.
    cbn [ToNumber]. by rewrite !add_NaN_r.
  - intros text wd. unfold labelAt, modify. by rewrite Hy.
Qed.

Lemma bezierMidpoint_short_text_gives_NaN_witness :
  Point.y (bezierMidpoint "M 1 2 C 3 4, 5 6, 7") = NaN.
Proof.
  apply (bezierMidpoint_short_text_gives_NaN "M 1 2 C 3 4, 5 6, 7").
  vm_compute. lia.
Defined.

(** The empty path text is not the text of a curve, and its midpoint is
    returned all the same: it is the point (NaN, NaN). *)
Lemma bezierMidpoint_empty_text_returns_NaN :
  matchNumbers "" = []
  /\ bezierMidpoint "" = Point.mk NaN NaN
  /\ outcome (labelAt (bezierMidpoint "") "true") (mkWorld [] [] ∅ None) = Normal tt.
Proof. repeat split. Qed.

(** ** Synthesized identifiers *)

Lemma pretty_N_char_digit (x : N) : is_digit (pretty_N_char x) = true.
Proof. unfold pretty_N_char. by repeat case_match. Qed.

Lemma pretty_N_go_digits (x : N) (s : string) :
  digitsOnly s = true -> digitsOnly (pretty_N_go x s) = true.
Proof.
  revert s. induction (N.lt_wf_0 x) as [x _ IH]. intros s Hs.
  destruct (decide (x = 0)%N) as [-> | Hx].
  - by rewrite pretty_N_go_0.
  - rewrite pretty_N_go_step by lia.
    apply IH.
    + apply N.div_lt; lia.
    + cbn [digitsOnly]. by rewrite pretty_N_char_digit.
Qed.

Lemma pretty_nat_digits (n : nat) : digitsOnly (pretty n) = true.
Proof.
  unfold pretty, pretty_nat, pretty, pretty_N.
  case_decide; [done |]. by apply pretty_N_go_digits.
Qed.

(** A run of digits ends at the first underscore. *)
Lemma digits_then_underscore (s1 s2 t1 t2 : string) :
  digitsOnly s1 = true -> digitsOnly s2 = true ->
  s1 +:+ String "_"%char t1 = s2 +:+ String "_"%char t2 ->
  s1 = s2.
Proof.
  revert s2. induction s1 as [|c1 s1 IH]; intros [|c2 s2] H1 H2 Heq; try done.
  - change (String "_"%char t1 = String c2 (s2 +:+ String "_"%char t2)) in Heq.
    injection Heq as <- _. cbn in H2. discriminate.
  - change (String c1 (s1 +:+ String "_"%char t1) = String "_"%char t2) in Heq.
    injection Heq as -> _. cbn in H1. discriminate.
  - change (String c1 (s1 +:+ String "_"%char t1)
            = String c2 (s2 +:+ String "_"%char t2)) in Heq.
    injection Heq as -> Heq.
    cbn [digitsOnly] in H1, H2.
    apply andb_prop in H1 as [_ H1]. apply andb_prop in H2 as [_ H2].
    f_equal. by apply IH.
Qed.

Lemma sequentialId_inj (i j : nat) (a b : string) :
  sequentialId i a = sequentialId j b -> i = j.
Proof.
  unfold sequentialId. intros H.
  apply (String.app_inj "seq_") in H.
  apply digits_then_underscore in H; auto using pretty_nat_digits.
  by apply (inj pretty) in H.
Qed.

Lemma sequentialId_truthy (i : nat) (a : string) : truthy (sequentialId i a) = true.
Proof. reflexivity. Qed.

(** C9: in one sequential block, the identifiers synthesized for two
    entries at different positions are different strings, whatever the
    tool names of the entries are. *)
Theorem sequentialId_distinct_within_block
    (sequential : list Inline.t) (i j : nat) (a b : Inline.t) :
  sequential !! i = Some a ->
  sequential !! j = Some b ->
  i <> j ->
  sequentialId i (Inline.tool_name a) <> sequentialId j (Inline.tool_name b).
Proof.
  intros _ _ Hij Heq. by apply sequentialId_inj in Heq.
Qed.

(** ** Running the statements of [render] *)

Lemma bind_normal {A B} (c : M A) (k : A -> M B) (wd wd1 : World) (a : A) :
  c wd = (Normal a, wd1) -> bind c k wd = k a wd1.
Proof. unfold bind. by intros ->. Qed.

Lemma boxOf_run (id : string) (b : NodeBBox.t) (wd : World) :
  nodePositions wd !! id = Some b -> boxOf id wd = (Normal b, wd).
Proof. unfold boxOf. by intros ->. Qed.

Lemma addWire_run (text : string) (wd : World) :
  addWire text wd = (Normal (mkPath text), appendPath (mkPath text) wd).
Proof. reflexivity. Qed.

Lemma labelAt_run (mid : Point.t) (text : string) (wd : World) :
  labelAt mid text wd
  = (Normal tt, appendChild (LabelEl text (Point.x mid) (Point.y mid)) wd).
Proof. reflexivity. Qed.

Lemma links_length (boxes : list NodeBBox.t) :
  length (links boxes) = (length boxes - 1)%nat.
Proof.
  unfold links. rewrite length_zip_with.
  destruct boxes as [|b boxes]; [done |]. cbn [tail length]. lia.
Qed.

Section RenderSteps.

Variable measure : Element -> number * number.

Lemma createNode_run (id : string) (opts : Opts.t) (wd : World) :
  let e := NodeEl id (Opts.type opts) (Opts.title opts)
             (orElse (Opts.subtitle opts) "") (Opts.x opts) (Opts.y opts) in
  createNode measure id opts wd
  = (Normal tt, setBox id (boxed measure e (Opts.x opts) (Opts.y opts)) (appendChild e wd)).
Proof. reflexivity. Qed.

Lemma orElse_empty (s : string) : orElse (Some s) "" = s.
Proof. by destruct s. Qed.

(** *** A sequential block *)

Lemma createNode_inline (cursorY : number) (idx : nat) (a : Inline.t) (wd : World) :
  createNode measure (sequentialId idx (Inline.tool_name a))
    (Opts.mk (orElse (Inline.label a) (Inline.tool_name a))
             (Some (toUpperCase (orElse (Inline.call_type a) "")))
             action originX (cursorY + index idx * ofZ 120)%num) wd
  = (Normal tt,
     setBox (sequentialId idx (Inline.tool_name a)) (inlineBox measure cursorY idx a)
       (appendChild (inlineNode cursorY idx a) wd)).
Proof.
  rewrite createNode_run. cbn [Opts.title Opts.subtitle Opts.type Opts.x Opts.y].
  by rewrite orElse_empty.
Qed.

Lemma sequentialLoop_run (cursorY : number) (entries : list Inline.t) :
  forall (idx : nat) (prev : option (string * NodeBBox.t)) (wd : World),
    prevKnown prev idx wd ->
    exists wd',
      sequentialLoop measure cursorY (fst <$> prev) idx entries wd = (Normal tt, wd')
      /\ canvas wd' = (canvas wd
           ++ imap (fun i => inlineNode cursorY (idx + i)) entries)%list
      /\ svg wd' = (svg wd
           ++ links (option_list (snd <$> prev)
                     ++ imap (fun i => inlineBox measure cursorY (idx + i)) entries))%list
      /\ viewBox wd' = viewBox wd.
Proof.
  induction entries as [|a rest IH]; intros idx prev wd Hprev.
  - exists wd. cbn. rewrite !app_nil_r.
    destruct prev as [[p pb]|]; cbn; by rewrite ?app_nil_r.
  - set (e := inlineNode cursorY idx a).
    set (b := inlineBox measure cursorY idx a).
    set (id := sequentialId idx (Inline.tool_name a)).
    set (wd1 := setBox id b (appendChild e wd)).
    assert (Hid : nodePositions wd1 !! id = Some b) by apply lookup_insert_eq.
    assert (Hbody : exists wd2,
               sequentialBody measure cursorY (fst <$> prev) a idx wd = (Normal (Some id), wd2)
               /\ canvas wd2 = (canvas wd ++ [e])%list
               /\ svg wd2 = (svg wd ++ links (option_list (snd <$> prev) ++ [b]))%list
               /\ nodePositions wd2 = nodePositions wd1
               /\ viewBox wd2 = viewBox wd).
    { unfold sequentialBody.
      rewrite (bind_normal _ _ wd wd1 tt) by apply createNode_inline.
      destruct prev as [[p pb]|]; cbn [fmap option_fmap option_map fst snd option_list].
      - destruct Hprev as [Hp (k & t & -> & Hk)].
        rewrite sequentialId_truthy.
        assert (Hp1 : nodePositions wd1 !! sequentialId k t = Some pb).
        { unfold wd1, setBox. cbn [nodePositions].
          rewrite lookup_insert_ne; [done |].
          intros Heq. apply sequentialId_inj in Heq. lia. }
        eexists. split.
        + erewrite bind_normal; [reflexivity |].
          erewrite bind_normal by (apply boxOf_run, Hp1).
          erewrite bind_normal by (apply boxOf_run, Hid).
          erewrite bind_normal by apply addWire_run.
          reflexivity.
        + by cbn.
      - exists wd1. split; [reflexivity |]. cbn. by rewrite app_nil_r. }
    destruct Hbody as (wd2 & Hrun & Hc & Hs & Hn & Hv).
    destruct (IH (S idx) (Some (id, b)) wd2) as (wd' & Hrun' & Hc' & Hs' & Hv').
    { split; [by rewrite Hn | exists idx, (Inline.tool_name a); split; [done | lia]]. }
    exists wd'. split; [| split; [| split]].
    + cbn [sequentialLoop]. by rewrite (bind_normal _ _ _ _ _ Hrun).
    + rewrite Hc', Hc, <-app_assoc. cbn [imap app]. rewrite Nat.add_0_r.
      do 2 f_equal. apply imap_ext. intros i x _. cbn. f_equal. lia.
    + rewrite Hs', Hs, <-app_assoc. f_equal.
      cbn [imap fmap option_fmap option_map snd option_list app].
      rewrite Nat.add_0_r. fold b.
      rewrite (imap_ext (fun i => inlineBox measure cursorY (S idx + i))
                 ((fun i => inlineBox measure cursorY (idx + i)) ∘ S) rest)
        by (intros i x _; cbn; f_equal; lia).
      destruct prev as [[p pb]|]; reflexivity.
    + by rewrite Hv', Hv.
Qed.

(** *** A split *)

Lemma baseX_same_column (i : nat) :
  (originX + columnWidth + index i * ofZ 0)%num = (originX + columnWidth)%num.
Proof.
  unfold originX, columnWidth, index, ofZ. cbn. f_equal.
  replace (Qc_of_Z 0) with 0%Qc by (by apply Qc_is_canon).
  by rewrite Qcmult_0_r, Qcplus_0_r.
Qed.

Lemma createNode_branch (cursorY : number) (i : nat) (a : Action.t) (wd : World) :
  let e := branchNode cursorY i a in
  createNode measure (orElse (Some (Action.id a)) (branchFallbackId i))
    (Opts.mk (Action.label a)
             (Some (toUpperCase (orElse (Action.provider a) "")))
             action (originX + columnWidth + index i * ofZ 0)%num
             (cursorY + index i * gapY)%num) wd
  = (Normal tt,
     setBox (orElse (Some (Action.id a)) (branchFallbackId i))
       (boxed measure e (originX + columnWidth)%num (cursorY + index i * gapY)%num)
       (appendChild e wd)).
Proof.
  rewrite createNode_run. cbn [Opts.title Opts.subtitle Opts.type Opts.x Opts.y].
  by rewrite orElse_empty, baseX_same_column.
Qed.

Lemma branchBody_run (splitId : string) (cursorY : number)
    (br : Branch) (a : Action.t) (i : nat) (wd : World) :
  firstAction br = Some a ->
  is_Some (nodePositions wd !! splitId) ->
  exists (wd' : World) (mid : Point.t) (text : string),
    branchBody measure splitId cursorY br i wd = (Normal tt, wd')
    /\ canvas wd' = (canvas wd ++ [branchNode cursorY i a;
                                   LabelEl (Branch_label br) (Point.x mid) (Point.y mid)])%list
    /\ svg wd' = (svg wd ++ [mkPath text])%list
    /\ is_Some (nodePositions wd' !! splitId)
    /\ viewBox wd' = viewBox wd.
Proof.
  intros Hfirst Hsplit. unfold branchBody.
  unfold firstAction in Hfirst.
  destruct (Branch_steps br !! 0%nat) as [[a' | |]|]; try discriminate.
  injection Hfirst as ->.
  cbn [fmap option_fmap option_map].
  set (id := orElse (Some (Action.id a)) (branchFallbackId i)).
  set (e := branchNode cursorY i a).
  set (b := boxed measure e (originX + columnWidth)%num (cursorY + index i * gapY)%num).
  set (wd1 := setBox id b (appendChild e wd)).
  assert (Hid : nodePositions wd1 !! id = Some b) by apply lookup_insert_eq.
  assert (Hfrom : exists fb, nodePositions wd1 !! splitId = Some fb).
  { unfold wd1, setBox. cbn [nodePositions].
    destruct (decide (id = splitId)) as [<- | Hne].
    - exists b. apply lookup_insert_eq.
    - rewrite lookup_insert_ne by done. exact Hsplit. }
  destruct Hfrom as [fb Hfb].
  eexists _, (bezierMidpoint (pathBetween fb b (ofZ 70))), (pathBetween fb b (ofZ 70)).
  split.
  - rewrite (bind_normal _ _ wd wd1 tt) by apply createNode_branch.
    erewrite bind_normal by (apply boxOf_run, Hfb).
    erewrite bind_normal by (apply boxOf_run, Hid).
    erewrite bind_normal by apply addWire_run.
    apply labelAt_run.
  - split; [| split; [| split]].
    + cbn. by rewrite <-app_assoc.
    + reflexivity.
    + change (is_Some (nodePositions wd1 !! splitId)). by rewrite Hfb.
    + reflexivity.
Qed.

Lemma branches_run (splitId : string) (cursorY : number) (branches : list Branch) :
  forall (acts : list Action.t) (i0 : nat) (wd : World),
    Forall2 (fun br a => firstAction br = Some a) branches acts ->
    is_Some (nodePositions wd !! splitId) ->
    exists (wd' : World) (news : list Element),
      forEachFrom (branchBody measure splitId cursorY) i0 branches wd = (Normal tt, wd')
      /\ canvas wd' = (canvas wd ++ news)%list
      /\ nodesOf news = imap (fun i => branchNode cursorY (i0 + i)) acts
      /\ labelsOf news = map Branch_label branches
      /\ length (svg wd') = (length (svg wd) + length branches)%nat
      /\ viewBox wd' = viewBox wd.
Proof.
  induction branches as [|br rest IH]; intros acts i0 wd Hacts Hsplit.
  - apply Forall2_nil_inv_l in Hacts as ->.
    exists wd, []. cbn. rewrite app_nil_r. repeat split. lia.
  - apply Forall2_cons_inv_l in Hacts as (a & acts' & Ha & Hrest & ->).
    destruct (branchBody_run splitId cursorY br a i0 wd Ha Hsplit)
      as (wd1 & mid & text & Hrun & Hc & Hs & Hsplit1 & Hv).
    destruct (IH acts' (S i0) wd1 Hrest Hsplit1)
      as (wd' & news & Hrun' & Hc' & Hn' & Hl' & Hs' & Hv').
    exists wd', (branchNode cursorY i0 a
                 :: LabelEl (Branch_label br) (Point.x mid) (Point.y mid) :: news).
    split; [| split; [| split; [| split; [| split]]]].
    + cbn [forEachFrom]. by rewrite (bind_normal _ _ _ _ _ Hrun).
    + rewrite Hc', Hc, <-app_assoc. reflexivity.
    + unfold nodesOf in *. cbn [imap]. rewrite Nat.add_0_r.
      rewrite filter_cons_True by done. rewrite filter_cons_False by (cbn; tauto).
      rewrite Hn'. f_equal. apply imap_ext. intros i x _. cbn. f_equal. lia.
    + unfold labelsOf in *. cbn. by rewrite Hl'.
    + rewrite Hs', Hs, length_app. cbn. lia.
    + by rewrite Hv', Hv.
Qed.

End RenderSteps.

(** ** One step of the plan *)

Lemma sequentialStep_run (measure : Element -> number * number) (cursorY : number)
    (sequential : list Inline.t) (wd : World) :
  exists wd',
    stepBody measure cursorY (SequentialStep sequential) wd
    = (Normal (cursorY + (index (length sequential) * rowHeight + blockGap))%num, wd')
    /\ canvas wd' = (canvas wd ++ imap (inlineNode cursorY) sequential)%list
    /\ svg wd' = (svg wd ++ links (imap (inlineBox measure cursorY) sequential))%list.
Proof.
  destruct (sequentialLoop_run measure cursorY sequential 0 None wd I)
    as (wd' & Hrun & Hc & Hs & _).
  exists wd'. split; [| split].
  - cbn [stepBody]. by rewrite (bind_normal _ _ _ _ _ Hrun).
  - exact Hc.
  - exact Hs.
Qed.

Lemma splitStep_run (measure : Element -> number * number) (cursorY : number)
    (id label : string) (branches : list Branch) (acts : list Action.t) (wd : World) :
  Forall2 (fun br a => firstAction br = Some a) branches acts ->
  exists (wd' : World) (news : list Element),
    stepBody measure cursorY (SplitStep id label branches) wd
    = (Normal (cursorY + ((index (length branches) - ofZ 1) * branchGap + verticalPad))%num,
       wd')
    /\ canvas wd' = (canvas wd ++ decisionNode cursorY id label :: news)%list
    /\ nodesOf news = imap (branchNode cursorY) acts
    /\ labelsOf news = map Branch_label branches
    /\ length (svg wd') = (length (svg wd) + length branches)%nat.
Proof.
  intros Hacts.
  set (e := decisionNode cursorY id label).
  set (wd1 := setBox id (boxed measure e originX cursorY) (appendChild e wd)).
  destruct (branches_run measure id cursorY branches acts 0 wd1 Hacts)
    as (wd' & news & Hrun & Hc & Hn & Hl & Hs & _).
  { exists (boxed measure e originX cursorY). apply lookup_insert_eq. }
  exists wd', news. split; [| split; [| split; [| split]]].
  - cbn [stepBody].
    rewrite (bind_normal _ _ wd wd1 tt) by apply createNode_run.
    unfold forEach. by rewrite (bind_normal _ _ _ _ _ Hrun).
  - rewrite Hc. cbn. by rewrite <-app_assoc.
  - exact Hn.
  - exact Hl.
  - exact Hs.
Qed.

(** C5: a sequential step visited at [cursorY] completes, appends to the
    canvas one node per entry, the node of the entry at position [idx] at
    x = originX and y = cursorY + idx * rowHeight, draws one curve from each
    node to the next one (n - 1 curves for n entries, none before the
    first), and moves the cursor by n * rowHeight + blockGap; four entries
    at cursor 160 are placed at y = 160, 280, 400, 520 with 3 curves. *)
Theorem sequential_step_layout :
  (forall (measure : Element -> number * number) (cursorY : number)
          (sequential : list Inline.t) (wd : World),
      exists wd',
        stepBody measure cursorY (SequentialStep sequential) wd
        = (Normal (cursorY + (index (length sequential) * rowHeight + blockGap))%num, wd')
        /\ canvas wd' = (canvas wd ++ imap (inlineNode cursorY) sequential)%list
        /\ (forall (idx : nat) (a : Inline.t),
               sequential !! idx = Some a ->
               exists (title subtitle : string),
                 imap (inlineNode cursorY) sequential !! idx
                 = Some (NodeEl (sequentialId idx (Inline.tool_name a)) action title subtitle
                           originX (cursorY + index idx * rowHeight)%num))
        /\ svg wd' = (svg wd ++ links (imap (inlineBox measure cursorY) sequential))%list
        /\ length (svg wd') = (length (svg wd) + (length sequential - 1))%nat)
  /\ (forall (measure : Element -> number * number) (a0 a1 a2 a3 : Inline.t) (wd : World),
         exists wd',
           exec (stepBody measure (ofZ 160) (SequentialStep [a0; a1; a2; a3])) wd = wd'
           /\ map topOf (drop (length (canvas wd)) (canvas wd'))
              = map (fun z => Some (ofZ z)) [160; 280; 400; 520]
           /\ length (svg wd') = (length (svg wd) + 3)%nat).
Proof.
  split.
  - intros measure cursorY sequential wd.
    destruct (sequentialStep_run measure cursorY sequential wd) as (wd' & Hrun & Hc & Hs).
    exists wd'. split; [exact Hrun |]. split; [exact Hc |]. split; [| split; [exact Hs |]].
    + intros idx a Ha. rewrite list_lookup_imap, Ha. cbn. eauto.
    + rewrite Hs, length_app, links_length, length_imap. done.
  - intros measure a0 a1 a2 a3 wd.
    destruct (sequentialStep_run measure (ofZ 160) [a0; a1; a2; a3] wd) as (wd' & Hrun & Hc & Hs).
    exists wd'. split; [unfold exec; by rewrite Hrun |]. split.
    + rewrite Hc, drop_app_length. cbn [imap map topOf inlineNode compose].
      closed_num.
    + rewrite Hs, length_app, links_length, length_imap. done.
Qed.

(** C4: a split step visited at [cursorY], each of whose branches begins
    with an action, completes, appends the decision node and then, for the
    branch at index i, a node at x = originX + columnWidth and
    y = cursorY + i * branchGap with the label and the curve of the branch,
    and moves the cursor by (branchCount - 1) * branchGap + verticalPad;
    three branches at cursor 160 are placed at y = 160, 300, 440 and the
    next cursor is 160 + 2 * 140 + 200. *)
Theorem split_step_layout :
  (forall (measure : Element -> number * number) (cursorY : number) (id label : string)
          (branches : list Branch) (acts : list Action.t) (wd : World),
      Forall2 (fun br a => firstAction br = Some a) branches acts ->
      exists (wd' : World) (news : list Element),
        stepBody measure cursorY (SplitStep id label branches) wd
        = (Normal (cursorY + ((index (length branches) - ofZ 1) * branchGap + verticalPad))%num,
           wd')
        /\ canvas wd' = (canvas wd ++ decisionNode cursorY id label :: news)%list
        /\ nodesOf news = imap (branchNode cursorY) acts
        /\ (forall (i : nat) (a : Action.t),
               acts !! i = Some a ->
               exists (nid title subtitle : string),
                 nodesOf news !! i
                 = Some (NodeEl nid action title subtitle
                           (originX + columnWidth)%num (cursorY + index i * branchGap)%num))
        /\ labelsOf news = map Branch_label branches
        /\ length (svg wd') = (length (svg wd) + length branches)%nat)
  /\ (forall (measure : Element -> number * number) (id label : string)
             (b0 b1 b2 : Branch) (a0 a1 a2 : Action.t) (wd : World),
         firstAction b0 = Some a0 -> firstAction b1 = Some a1 -> firstAction b2 = Some a2 ->
         exists (wd' : World),
           stepBody measure (ofZ 160) (SplitStep id label [b0; b1; b2]) wd
           = (Normal (ofZ (160 + 2 * 140 + 200)), wd')
           /\ map topOf (nodesOf (drop (S (length (canvas wd))) (canvas wd')))
              = map (fun z => Some (ofZ z)) [160; 300; 440]).
Proof.
  split.
  - intros measure cursorY id label branches acts wd Hacts.
    destruct (splitStep_run measure cursorY id label branches acts wd Hacts)
      as (wd' & news & Hrun & Hc & Hn & Hl & Hs).
    exists wd', news. repeat (split; [done |]). split; [| done].
    intros i a Ha. rewrite Hn, list_lookup_imap, Ha. cbn. unfold branchNode. eauto.
  - intros measure id label b0 b1 b2 a0 a1 a2 wd H0 H1 H2.
    destruct (splitStep_run measure (ofZ 160) id label [b0; b1; b2] [a0; a1; a2] wd)
      as (wd' & news & Hrun & Hc & Hn & _).
    { repeat constructor; done. }
    exists wd'. split.
    + rewrite Hrun. do 2 f_equal. closed_num.
    + rewrite Hc, cons_middle, app_assoc.
      replace (S (length (canvas wd)))
        with (length (canvas wd ++ [decisionNode (ofZ 160) id label])%list)
        by (rewrite length_app; cbn; lia).
      rewrite drop_app_length, Hn.
      cbn [imap map topOf branchNode compose]. closed_num.
Qed.

(** ** Properties that every statement of the traversal has *)

Section Structural.

Variable measure : Element -> number * number.
Variable P : forall A : Type, M A -> Prop.

Hypothesis P_ret : forall (A : Type) (a : A), P A (ret a).
Hypothesis P_throw : forall (A : Type) (e : Exn), P A (throw e).
Hypothesis P_bind :
  forall (A B : Type) (c : M A) (k : A -> M B),
    P A c -> (forall a, P B (k a)) -> P B (bind c k).
Hypothesis P_createNode : forall id opts, P unit (createNode measure id opts).
Hypothesis P_boxOf : forall id, P NodeBBox.t (boxOf id).
Hypothesis P_addWire : forall text, P SvgPath (addWire text).
Hypothesis P_labelAt : forall mid text, P unit (labelAt mid text).

Ltac structural :=
  repeat first [ apply P_ret | apply P_throw | apply P_createNode | apply P_boxOf
               | apply P_addWire | apply P_labelAt
               | apply P_bind; [| intros ?] ].

Lemma P_forEachFrom {A} (body : A -> nat -> M unit) (xs : list A) :
  (forall a i, P unit (body a i)) ->
  forall i, P unit (forEachFrom body i xs).
Proof.
  intros Hbody. induction xs as [|a xs IH]; intros i; cbn [forEachFrom].
  - apply P_ret.
  - apply P_bind; [apply Hbody | intros _; apply IH].
Qed.

Lemma P_branchBody splitId cursorY br i :
  P unit (branchBody measure splitId cursorY br i).
Proof.
  unfold branchBody.
  destruct (Branch_steps br !! 0%nat) as [[a | |]|]; structural.
Qed.

Lemma P_sequentialBody cursorY prevId a idx :
  P (option string) (sequentialBody measure cursorY prevId a idx).
Proof.
  unfold sequentialBody. structural.
  destruct prevId as [p|]; [destruct (truthy p) |]; structural.
Qed.

Lemma P_sequentialLoop cursorY entries :
  forall prevId idx, P unit (sequentialLoop measure cursorY prevId idx entries).
Proof.
  induction entries as [|a rest IH]; intros prevId idx; cbn [sequentialLoop].
  - apply P_ret.
  - apply P_bind; [apply P_sequentialBody | intros prevId'; apply IH].
Qed.

Lemma P_stepBody cursorY step : P number (stepBody measure cursorY step).
Proof.
  destruct step as [a | id label branches | sequential]; cbn [stepBody]; structural.
  - apply P_forEachFrom. intros br i. apply P_branchBody.
  - apply P_sequentialLoop.
Qed.

Lemma P_stepsLoop ss : forall cursorY, P number (stepsLoop measure cursorY ss).
Proof.
  induction ss as [|step rest IH]; intros cursorY; cbn [stepsLoop].
  - apply P_ret.
  - apply P_bind; [apply P_stepBody | intros cursorY'; apply IH].
Qed.

End Structural.

(** *** The canvas only grows, by nodes and labels *)

Lemma grows_refl (wd : World) : grows wd wd.
Proof. exists []. by rewrite app_nil_r. Qed.

Lemma grows_trans (wd1 wd2 wd3 : World) : grows wd1 wd2 -> grows wd2 wd3 -> grows wd1 wd3.
Proof.
  intros (n1 & H1 & F1) (n2 & H2 & F2). exists (n1 ++ n2)%list. split.
  - by rewrite H2, H1, <-app_assoc.
  - by apply Forall_app.
Qed.

Lemma growing_bind (A B : Type) (c : M A) (k : A -> M B) :
  growing A c -> (forall a, growing B (k a)) -> growing B (bind c k).
Proof.
  intros Hc Hk wd. unfold bind. specialize (Hc wd).
  destruct (c wd) as [[a | e] wd1]; cbn in *; [| done].
  eapply grows_trans; [exact Hc | apply Hk].
Qed.

Lemma growing_traversal (measure : Element -> number * number) (ss : list Step) (cursorY : number) :
  growing number (stepsLoop measure cursorY ss).
Proof.
  apply (P_stepsLoop measure growing).
  - intros A a wd. apply grows_refl.
  - intros A e wd. apply grows_refl.
  - apply growing_bind.
  - intros id opts wd. rewrite createNode_run. cbn. eexists [_]. split; [done |].
    by repeat constructor.
  - intros id wd. unfold boxOf. destruct (nodePositions wd !! id); apply grows_refl.
  - intros text wd. exists []. cbn. by rewrite app_nil_r.
  - intros mid text wd. rewrite labelAt_run. cbn. eexists [_]. split; [done |].
    by repeat constructor.
Qed.

(** *** The view box is neither read nor written *)

Lemma framed_bind (A B : Type) (c : M A) (k : A -> M B) :
  framed A c -> (forall a, framed B (k a)) -> framed B (bind c k).
Proof.
  intros Hc Hk v wd. unfold bind. rewrite Hc.
  destruct (c wd) as [[a | e] wd1]; cbn; [apply Hk | done].
Qed.

Lemma framed_traversal (measure : Element -> number * number) (ss : list Step) (cursorY : number) :
  framed number (stepsLoop measure cursorY ss).
Proof.
  apply (P_stepsLoop measure framed).
  - by intros A a v wd.
  - by intros A e v wd.
  - apply framed_bind.
  - by intros id opts v wd.
  - intros id v wd. unfold boxOf. cbn. by destruct (nodePositions wd !! id).
  - by intros text v wd.
  - by intros mid text v wd.
Qed.

Lemma withViewBox_same (wd : World) : withViewBox (viewBox wd) wd = wd.
Proof. by destruct wd. Qed.

Lemma traversal_keeps_viewBox (measure : Element -> number * number)
    (ss : list Step) (cursorY : number) (wd : World) :
  viewBox (snd (stepsLoop measure cursorY ss wd)) = viewBox wd.
Proof.
  pose proof (framed_traversal measure ss cursorY (viewBox wd) wd) as H.
  rewrite withViewBox_same in H.
  destruct (stepsLoop measure cursorY ss wd) as [r wd']. cbn in *.
  by injection H as ->.
Qed.

(** ** Re-rendering *)

Lemma clearAll_canvas (wd : World) :
  canvas (clearAll wd) = flat_map removeMatching (canvas wd).
Proof. reflexivity. Qed.

Lemma removeMatching_created (news : list Element) :
  Forall (fun e => isNodeOrLabel e = true) news -> flat_map removeMatching news = [].
Proof.
  induction 1 as [|e news He _ IH]; [done |].
  destruct e as [id ty t s x y | text x y | markup children]; [exact IH | exact IH | done].
Qed.

Lemma removeMatching_unmarked_element (e : Element) :
  unmarked e = true -> removeMatching e = [e].
Proof.
  revert e. refine (Element_nested_ind _ _ _ _); [done | done |].
  intros markup children IH He. cbn [unmarked] in He. cbn [removeMatching].
  do 2 f_equal.
  induction IH as [|c children Hc _ IHcs]; [done |].
  cbn [forallb] in He. apply andb_true_iff in He as [Hc1 Hcs1].
  cbn [flat_map]. by rewrite (Hc Hc1), (IHcs Hcs1).
Qed.

Lemma removeMatching_unmarked (els : list Element) :
  Forall (fun e => unmarked e = true) els -> flat_map removeMatching els = els.
Proof.
  induction 1 as [|e els He _ IH]; [done |].
  cbn [flat_map]. by rewrite (removeMatching_unmarked_element e He), IH.
Qed.

Lemma removeMatching_leaves_unmarked_element (e : Element) :
  Forall (fun e' => unmarked e' = true) (removeMatching e).
Proof.
  revert e. refine (Element_nested_ind _ _ _ _); [by constructor | by constructor |].
  intros markup children IH. cbn [removeMatching]. constructor; [| constructor].
  cbn [unmarked].
  induction IH as [|c children Hc _ IHcs]; [done |].
  cbn [flat_map]. rewrite forallb_app. apply andb_true_iff. split; [| exact IHcs].
  apply forallb_forall. intros x Hx.
  apply list_elem_of_In in Hx. by eapply Forall_forall in Hc.
Qed.

Lemma removeMatching_leaves_unmarked (els : list Element) :
  Forall (fun e => unmarked e = true) (flat_map removeMatching els).
Proof.
  induction els as [|e els IH]; [constructor |].
  cbn [flat_map]. apply Forall_app. split; [apply removeMatching_leaves_unmarked_element | exact IH].
Qed.

Lemma removeMatching_twice (els : list Element) :
  flat_map removeMatching (flat_map removeMatching els) = flat_map removeMatching els.
Proof. apply removeMatching_unmarked, removeMatching_leaves_unmarked. Qed.

Lemma nodesOf_cleared (els : list Element) : nodesOf (flat_map removeMatching els) = [].
Proof.
  unfold nodesOf. induction els as [|e els IH]; [done |].
  destruct e as [id ty t s x y | text x y | markup children]; [exact IH | exact IH |].
  cbn [flat_map removeMatching app]. by rewrite filter_cons_False by (cbn; tauto).
Qed.

Lemma labelsOf_cleared (els : list Element) : labelsOf (flat_map removeMatching els) = [].
Proof.
  unfold labelsOf. induction els as [|e els IH]; [done |].
  by destruct e as [id ty t s x y | text x y | markup children].
Qed.

Lemma clearAll_cleared (wd : World) :
  nodesOf (canvas (clearAll wd)) = []
  /\ labelsOf (canvas (clearAll wd)) = []
  /\ svg (clearAll wd) = []
  /\ nodePositions (clearAll wd) = ∅.
Proof.
  rewrite clearAll_canvas.
  split; [apply nodesOf_cleared |]. split; [apply labelsOf_cleared |]. split; reflexivity.
Qed.

Lemma clearAll_after_traversal (wd wdL : World) :
  grows (clearAll wd) wdL ->
  clearAll wdL = withViewBox (viewBox wdL) (clearAll wd).
Proof.
  intros (news & Hc & Hnews). unfold clearAll at 1, withViewBox.
  f_equal. change (flat_map removeMatching (canvas wdL) = canvas (clearAll wd)).
  rewrite Hc, flat_map_app, (removeMatching_created news Hnews).
  rewrite app_nil_r, clearAll_canvas. apply removeMatching_twice.
Qed.

Lemma render_unfold (measure : Element -> number * number)
    (canvasRect : list Element -> number * number) (plan : Plan) (wd : World) :
  render measure canvasRect plan wd
  = match stepsLoop measure originY (steps plan) (clearAll wd) with
    | (Normal _, wdL) => (Normal tt, setViewBox (viewBoxText (canvasRect (canvas wdL))) wdL)
    | (Throw e, wdL) => (Throw e, wdL)
    end.
Proof.
  unfold render, bind, modify, gets. cbn.
  by destruct (stepsLoop measure originY (steps plan) (clearAll wd)) as [[cy | e] wdL].
Qed.

Lemma firstActions_exist (branches : list Branch) :
  Forall (fun br => is_Some (firstAction br)) branches ->
  exists acts, Forall2 (fun br a => firstAction br = Some a) branches acts.
Proof.
  induction 1 as [|br rest [a Ha] _ [acts IH]].
  - exists []. constructor.
  - exists (a :: acts). by constructor.
Qed.

Lemma stepsLoop_completes (measure : Element -> number * number) (ss : list Step) :
  Forall branchesDrawable ss ->
  forall (cursorY : number) (wd : World),
    exists (cursorY' : number) (wd' : World),
      stepsLoop measure cursorY ss wd = (Normal cursorY', wd').
Proof.
  induction 1 as [|step rest Hstep _ IH]; intros cursorY wd; cbn [stepsLoop].
  - by eexists _, _.
  - assert (Hrun : exists cy wd1, stepBody measure cursorY step wd = (Normal cy, wd1)).
    { destruct step as [a | id label branches | sequential].
      - by eexists _, _.
      - destruct (firstActions_exist branches Hstep) as [acts Hacts].
        destruct (splitStep_run measure cursorY id label branches acts wd Hacts)
          as (wd1 & news & Hrun & _).
        by eexists _, _.
      - destruct (sequentialStep_run measure cursorY sequential wd) as (wd1 & Hrun & _).
        by eexists _, _. }
    destruct Hrun as (cy & wd1 & Hrun).
    rewrite (bind_normal _ _ _ _ _ Hrun). apply IH.
Qed.

(** A drawable plan is rendered without an exception. *)
Lemma render_completes (measure : Element -> number * number)
    (canvasRect : list Element -> number * number) (plan : Plan) (wd : World) :
  drawable plan -> outcome (render measure canvasRect plan) wd = Normal tt.
Proof.
  intros Hplan. unfold outcome. rewrite render_unfold.
  destruct (stepsLoop_completes measure (steps plan) Hplan originY (clearAll wd))
    as (cy & wdL & ->).
  reflexivity.
Qed.

(** C6: [render] begins by removing every node and label from the canvas
    and every wire from the wires layer and by emptying the node-box
    mapping; what it then draws does not depend on what it removed, so a
    second call with the same plan and the same measured sizes ends as the
    first one did and leaves the page as the first one left it: the same
    nodes, node boxes, curves and labels. *)
Theorem render_idempotent
    (measure : Element -> number * number)
    (canvasRect : list Element -> number * number) (plan : Plan) (wd : World) :
  (nodesOf (canvas (clearAll wd)) = []
   /\ labelsOf (canvas (clearAll wd)) = []
   /\ svg (clearAll wd) = []
   /\ nodePositions (clearAll wd) = ∅)
  /\ render measure canvasRect plan wd
     = bind (stepsLoop measure originY (steps plan))
         (fun _ => bind (gets (fun wd => canvasRect (canvas wd)))
            (fun content => modify (setViewBox (viewBoxText content))))
         (clearAll wd)
  /\ render measure canvasRect plan (exec (render measure canvasRect plan) wd)
     = render measure canvasRect plan wd
  /\ (let once := exec (render measure canvasRect plan) wd in
      let twice := exec (render measure canvasRect plan) once in
      nodePositions twice = nodePositions once
      /\ svg twice = svg once
      /\ canvas twice = canvas once).
Proof.
  split; [apply clearAll_cleared |]. split; [reflexivity |].
  assert (Hsame : render measure canvasRect plan (exec (render measure canvasRect plan) wd)
                  = render measure canvasRect plan wd);
    [| split; [exact Hsame | cbn zeta; unfold exec in *; by rewrite Hsame]].
  unfold exec. rewrite !render_unfold.
  pose proof (growing_traversal measure (steps plan) originY (clearAll wd)) as Hgrow.
  pose proof (traversal_keeps_viewBox measure (steps plan) originY (clearAll wd)) as Hview.
  pose proof (framed_traversal measure (steps plan) originY) as Hframe.
  destruct (stepsLoop measure originY (steps plan) (clearAll wd)) as [[cy | e] wdL] eqn:Hloop;
    cbn [snd] in *.
  - set (s := viewBoxText (canvasRect (canvas wdL))).
    assert (Hclear : clearAll (setViewBox s wdL) = withViewBox (Some s) (clearAll wd)).
    { rewrite (clearAll_after_traversal wd); [done |].
      destruct Hgrow as (news & Hc & Hn). by exists news. }
    rewrite Hclear, Hframe, Hloop. cbn [fst snd]. fold s. reflexivity.
  - assert (Hclear : clearAll wdL = clearAll wd).
    { rewrite (clearAll_after_traversal wd wdL Hgrow), Hview. apply withViewBox_same. }
    by rewrite Hclear, Hloop.
Qed.

(** ** The node-box mapping *)

Section RegistryFacts.

Variable measure : Element -> number * number.

Lemma keeps_bind (A B : Type) (c : M A) (k : A -> M B) :
  keeps measure A c -> (forall a, keeps measure B (k a)) -> keeps measure B (bind c k).
Proof.
  intros Hc Hk wd Hwd. unfold bind. specialize (Hc wd Hwd).
  destruct (c wd) as [[a | e] wd1]; cbn in *; [by apply Hk | done].
Qed.

Lemma keeps_traversal (ss : list Step) (cursorY : number) :
  keeps measure number (stepsLoop measure cursorY ss).
Proof.
  apply (P_stepsLoop measure (keeps measure)).
  - by intros A a wd.
  - by intros A e wd.
  - apply keeps_bind.
  - intros id opts wd Hwd. rewrite createNode_run. unfold registered in *. cbn.
    unfold registry. rewrite foldl_app. cbn. by rewrite Hwd.
  - intros id wd Hwd. unfold boxOf. by destruct (nodePositions wd !! id).
  - by intros text wd.
  - intros mid text wd Hwd. rewrite labelAt_run. unfold registered in *. cbn.
    unfold registry. rewrite foldl_app. cbn. by rewrite Hwd.
Qed.

Lemma registry_cleared (els : list Element) :
  registry measure (flat_map removeMatching els) = ∅.
Proof.
  unfold registry. induction els as [|e els IH]; [done |].
  by destruct e as [id ty t s x y | text x y | markup children].
Qed.

Lemma registry_last (els : list Element) (id : string) (ty : NodeType)
    (t s : string) (x y : number) :
  registry measure (els ++ [NodeEl id ty t s x y]) !! id
  = Some (boxed measure (NodeEl id ty t s x y) x y).
Proof. unfold registry. rewrite foldl_app. cbn. apply lookup_insert_eq. Qed.

Lemma render_registered (canvasRect : list Element -> number * number)
    (plan : Plan) (wd : World) :
  registered measure (exec (render measure canvasRect plan) wd).
Proof.
  unfold exec. rewrite render_unfold.
  pose proof (keeps_traversal (steps plan) originY (clearAll wd)) as H.
  destruct (stepsLoop measure originY (steps plan) (clearAll wd)) as [[cy | e] wdL];
    cbn [snd] in *; apply H; unfold registered;
    by rewrite clearAll_canvas, registry_cleared.
Qed.

End RegistryFacts.

(** C8: the keys of the node-box mapping are not checked.  [createNode]
    always completes and sets the entry of its identifier, replacing the
    box of an earlier node with the same identifier, whose element stays in
    the canvas; after [render] the mapping holds, for each identifier, the
    box of the last node created with it; and a plan in which two steps
    get the same identifier renders without an error. *)
Theorem nodePositions_last_node_wins :
  (forall (measure : Element -> number * number) (id : string) (opts : Opts.t) (wd : World),
      exists (wd' : World) (e : Element),
        createNode measure id opts wd = (Normal tt, wd')
        /\ canvas wd' = (canvas wd ++ [e])%list
        /\ nodePositions wd' = <[id := boxed measure e (Opts.x opts) (Opts.y opts)]> (nodePositions wd)
        /\ nodePositions wd' !! id = Some (boxed measure e (Opts.x opts) (Opts.y opts)))
  /\ (forall (measure : Element -> number * number)
             (canvasRect : list Element -> number * number) (plan : Plan) (wd : World),
         nodePositions (exec (render measure canvasRect plan) wd)
         = registry measure (canvas (exec (render measure canvasRect plan) wd)))
  /\ (forall (measure : Element -> number * number) (earlier : list Element)
             (id : string) (ty : NodeType) (t s : string) (x y : number),
         registry measure (earlier ++ [NodeEl id ty t s x y]) !! id
         = Some (boxed measure (NodeEl id ty t s x y) x y))
  /\ (let wd' := exec (render fixedSize fixedBounds collidingPlan) blankPage in
      outcome (render fixedSize fixedBounds collidingPlan) blankPage = Normal tt
      /\ nodesOf (canvas wd')
         = [NodeEl "seq_0_PING" action "PING" "" (ofZ 140) (ofZ 160);
            NodeEl "seq_0_PING" action "again" "" (ofZ 140) (ofZ 320)]
      /\ NodeBBox.y <$> nodePositions wd' !! "seq_0_PING" = Some (ofZ 320)
      /\ size (nodePositions wd') = 1%nat).
Proof.
  split; [| split; [| split]].
  - intros measure id opts wd. eexists _, _. split; [apply createNode_run |].
    cbn. split; [done |]. split; [done |]. apply lookup_insert_eq.
  - intros measure canvasRect plan wd. apply render_registered.
  - intros measure earlier id ty t s x y. apply registry_last.
  - cbn zeta. split; [by vm_compute |]. split; [closed_num |]. split; [closed_num |].
    by vm_compute.
Qed.

(** ** The example plan *)

Lemma nodesOf_app (l k : list Element) : nodesOf (l ++ k) = (nodesOf l ++ nodesOf k)%list.
Proof. apply filter_app. Qed.

Lemma labelsOf_app (l k : list Element) : labelsOf (l ++ k) = (labelsOf l ++ labelsOf k)%list.
Proof. apply omap_app. Qed.

(** C1, as the program has it: one call of [render] on the example plan
    completes and leaves in the canvas exactly 7 nodes (the decision node,
    2 branch nodes and 4 nodes of the sequential chain), in the wires layer
    exactly 5 curves (2 branch wires and 3 sequential links), and exactly
    the 2 branch labels "true" and "false". *)
Theorem render_example_scene
    (measure : Element -> number * number)
    (canvasRect : list Element -> number * number) (wd : World) :
  let wd' := exec (render measure canvasRect example) wd in
  outcome (render measure canvasRect example) wd = Normal tt
  /\ length (nodesOf (canvas wd')) = 7%nat
  /\ length (svg wd') = 5%nat
  /\ labelsOf (canvas wd') = ["true"; "false"].
Proof.
  unfold exec, outcome. rewrite render_unfold.
  unfold example. cbn [steps stepsLoop].
  match goal with
  | |- context [stepBody measure originY (SplitStep ?id ?label ?branches)] =>
      destruct (splitStep_run measure originY id label branches exampleActions (clearAll wd))
        as (wd1 & news & Hrun1 & Hc1 & Hn1 & Hl1 & Hs1)
  end.
  { by repeat constructor. }
  rewrite (bind_normal _ _ _ _ _ Hrun1).
  match goal with
  | |- context [stepBody measure ?cy (SequentialStep ?entries)] =>
      destruct (sequentialStep_run measure cy entries wd1) as (wd2 & Hrun2 & Hc2 & Hs2)
  end.
  rewrite (bind_normal _ _ _ _ _ Hrun2).
  cbn [ret fst snd canvas svg setViewBox].
  split; [done |]. split; [| split].
  - rewrite Hc2, Hc1, !nodesOf_app, (proj1 (clearAll_cleared wd)).
    change (nodesOf (decisionNode originY "is_manager" "Is manager?" :: news))
      with (nodesOf ([decisionNode originY "is_manager" "Is manager?"] ++ news)%list).
    rewrite nodesOf_app, Hn1. reflexivity.
  - rewrite Hs2, length_app, links_length, length_imap, Hs1.
    by rewrite (proj1 (proj2 (proj2 (clearAll_cleared wd)))).
  - rewrite Hc2, Hc1, !labelsOf_app, (proj1 (proj2 (clearAll_cleared wd))).
    change (labelsOf (decisionNode originY "is_manager" "Is manager?" :: news))
      with (labelsOf news).
    rewrite Hl1. reflexivity.
Qed.

(** The scene as the specification counts it, with 6 nodes, is not what
    [render] leaves on a blank page. *)
Lemma render_example_not_six_nodes :
  length (nodesOf (canvas (exec (render fixedSize fixedBounds example) blankPage))) = 7%nat
  /\ ~ (length (nodesOf (canvas (exec (render fixedSize fixedBounds example) blankPage))) = 6%nat
        /\ length (svg (exec (render fixedSize fixedBounds example) blankPage)) = 5%nat
        /\ labelsOf (canvas (exec (render fixedSize fixedBounds example) blankPage))
           = ["true"; "false"]).
Proof.
  assert (H7 : length (nodesOf (canvas (exec (render fixedSize fixedBounds example) blankPage)))
               = 7%nat) by (vm_compute; reflexivity).
  split; [exact H7 |]. intros [H6 _]. rewrite H7 in H6. discriminate.
Qed.

(** ** Instances *)

Lemma split_step_layout_witness :
  (exists (wd' : World) (news : list Element),
      stepBody fixedSize (ofZ 160) (SplitStep "level" "Level?" threeWay) blankPage
      = (Normal (ofZ 160 + ((index 3 - ofZ 1) * branchGap + verticalPad))%num, wd')
      /\ canvas wd' = decisionNode (ofZ 160) "level" "Level?" :: news
      /\ nodesOf news = imap (branchNode (ofZ 160)) threeWayActions)
  /\ (exists wd' : World,
         stepBody fixedSize (ofZ 160) (SplitStep "level" "Level?" threeWay) blankPage
         = (Normal (ofZ 640), wd')
         /\ map topOf (nodesOf (drop 1 (canvas wd')))
            = [Some (ofZ 160); Some (ofZ 300); Some (ofZ 440)]).
Proof.
  split.
  - destruct (proj1 split_step_layout fixedSize (ofZ 160) "level" "Level?"
                threeWay threeWayActions blankPage)
      as (wd' & news & Hrun & Hc & Hn & _).
    { repeat constructor; reflexivity. }
    exists wd', news. repeat split; assumption.
  - apply (proj2 split_step_layout fixedSize "level" "Level?"
             (mkBranch "low" [ActionStep (Action.mk "notify" None "Notify" None None)])
             (mkBranch "mid" [ActionStep (Action.mk "review" (Some "jira") "Review" None None);
                              SequentialStep []])
             (mkBranch "high" [ActionStep (Action.mk "" None "Escalate" None None)])
             (Action.mk "notify" None "Notify" None None)
             (Action.mk "review" (Some "jira") "Review" None None)
             (Action.mk "" None "Escalate" None None)
             blankPage); reflexivity.
Defined.

Lemma sequentialId_distinct_within_block_witness :
  sequentialId 0 "1_PING" <> sequentialId 1 "PING".
Proof.
  apply (sequentialId_distinct_within_block
           [Inline.mk None None "1_PING" None None; Inline.mk None None "PING" None None]
           0 1
           (Inline.mk None None "1_PING" None None) (Inline.mk None None "PING" None None)).
  - reflexivity.
  - reflexivity.
  - lia.
Defined.

(** A branch that does not begin with an action makes the callback throw
    before anything is drawn for it. *)
Lemma branchBody_without_action (measure : Element -> number * number)
    (splitId : string) (cursorY : number) (br : Branch) (i : nat) (wd : World) :
  firstAction br = None ->
  exists e, branchBody measure splitId cursorY br i wd = (Throw e, wd).
Proof.
  unfold firstAction, branchBody. intros H.
  destruct (Branch_steps br !! 0%nat) as [[a | |]|]; try discriminate; by eexists.
Qed.

(** * Further properties *)

(** ** When [render] completes *)

Lemma bind_throws {A B} (c : M A) (k : A -> M B) (wd wd1 : World) (e : Exn) :
  c wd = (Throw e, wd1) -> bind c k wd = (Throw e, wd1).
Proof. unfold bind. by intros ->. Qed.

Lemma branches_throw (measure : Element -> number * number) (splitId : string)
    (cursorY : number) (branches : list Branch) :
  forall (i0 : nat) (wd : World),
    ~ Forall (fun br => is_Some (firstAction br)) branches ->
    is_Some (nodePositions wd !! splitId) ->
    exists e wd', forEachFrom (branchBody measure splitId cursorY) i0 branches wd = (Throw e, wd').
Proof.
  induction branches as [|br rest IH]; intros i0 wd Hbad Hsplit.
  - destruct Hbad. constructor.
  - cbn [forEachFrom]. destruct (firstAction br) as [a|] eqn:Hbr.
    + destruct (branchBody_run measure splitId cursorY br a i0 wd Hbr Hsplit)
        as (wd1 & mid & text & Hrun & _ & _ & Hsplit1 & _).
      rewrite (bind_normal _ _ _ _ _ Hrun). apply IH; [| done].
      intros Hrest. apply Hbad. constructor; [by rewrite Hbr | done].
    + destruct (branchBody_without_action measure splitId cursorY br i0 wd Hbr) as [e He].
      exists e, wd. by rewrite (bind_throws _ _ _ _ _ He).
Qed.

Lemma stepBody_completes (measure : Element -> number * number) (cursorY : number)
    (step : Step) (wd : World) :
  branchesDrawable step ->
  exists cy wd1, stepBody measure cursorY step wd = (Normal cy, wd1).
Proof.
  intros Hstep. destruct step as [a | id label branches | sequential].
  - by eexists _, _.
  - destruct (firstActions_exist branches Hstep) as [acts Hacts].
    destruct (splitStep_run measure cursorY id label branches acts wd Hacts)
      as (wd1 & news & Hrun & _).
    by eexists _, _.
  - destruct (sequentialStep_run measure cursorY sequential wd) as (wd1 & Hrun & _).
    by eexists _, _.
Qed.

Lemma stepBody_throws (measure : Element -> number * number) (cursorY : number)
    (step : Step) (wd : World) :
  ~ branchesDrawable step ->
  exists e wd1, stepBody measure cursorY step wd = (Throw e, wd1).
Proof.
  intros Hstep. destruct step as [a | id label branches | sequential];
    [by destruct Hstep | | by destruct Hstep].
  cbn [stepBody branchesDrawable] in *.
  erewrite bind_normal by apply createNode_run.
  edestruct (branches_throw measure id cursorY branches 0) as (e & wd1 & Hrun);
    [exact Hstep | | ].
  2: { exists e, wd1. unfold forEach. by rewrite (bind_throws _ _ _ _ _ Hrun). }
  cbn. rewrite lookup_insert_eq. by eexists.
Qed.

Lemma stepsLoop_throws (measure : Element -> number * number) (ss : list Step) :
  ~ Forall branchesDrawable ss ->
  forall (cursorY : number) (wd : World),
    exists e wd', stepsLoop measure cursorY ss wd = (Throw e, wd').
Proof.
  induction ss as [|step rest IH]; intros Hbad cursorY wd.
  - destruct Hbad. constructor.
  - cbn [stepsLoop]. destruct (decide (branchesDrawable step)) as [Hstep | Hstep].
    + destruct (stepBody_completes measure cursorY step wd Hstep) as (cy & wd1 & Hrun).
      rewrite (bind_normal _ _ _ _ _ Hrun). apply IH.
      intros Hrest. apply Hbad. by constructor.
    + destruct (stepBody_throws measure cursorY step wd Hstep) as (e & wd1 & Hrun).
      exists e, wd1. by rewrite (bind_throws _ _ _ _ _ Hrun).
Qed.

(** X1: [render] completes normally exactly for the plans in which every
    branch of every top-level split begins with an action; for any other
    plan it throws, whatever sizes the browser reports and whatever the
    page held. *)
Theorem render_completes_iff_drawable
    (measure : Element -> number * number)
    (canvasRect : list Element -> number * number) (plan : Plan) (wd : World) :
  (outcome (render measure canvasRect plan) wd = Normal tt <-> drawable plan)
  /\ ((exists e, outcome (render measure canvasRect plan) wd = Throw e) <-> ~ drawable plan).
Proof.
  unfold outcome, drawable. rewrite render_unfold.
  destruct (decide (Forall branchesDrawable (steps plan))) as [Hplan | Hplan].
  - destruct (stepsLoop_completes measure (steps plan) Hplan originY (clearAll wd))
      as (cy & wdL & ->). cbn.
    split; split; try done. intros [e He]. discriminate.
  - destruct (stepsLoop_throws measure (steps plan) Hplan originY (clearAll wd))
      as (e & wdL & ->). cbn.
    split; split; try done. intros _. by exists e.
Qed.

(** X2: when [render] completes, the view box of the wires layer is
    [0 0 w h] for the canvas bounds measured after drawing; when it throws,
    the view box is the one the page had before the call, although nodes,
    labels and wires have been removed. *)
Theorem render_viewBox
    (measure : Element -> number * number)
    (canvasRect : list Element -> number * number) (plan : Plan) (wd : World) :
  match outcome (render measure canvasRect plan) wd with
  | Normal _ =>
      viewBox (exec (render measure canvasRect plan) wd)
      = Some (viewBoxText (canvasRect (canvas (exec (render measure canvasRect plan) wd))))
  | Throw _ =>
      viewBox (exec (render measure canvasRect plan) wd) = viewBox wd
  end.
Proof.
  unfold outcome, exec. rewrite render_unfold.
  pose proof (traversal_keeps_viewBox measure (steps plan) originY (clearAll wd)) as Hview.
  destruct (stepsLoop measure originY (steps plan) (clearAll wd)) as [[cy | e] wdL];
    cbn in *; done.
Qed.

(** A node below another child of the canvas is found by the selector too:
    the section stays, without the node and the label it held. *)
Example removeMatching_reaches_descendants :
  flat_map removeMatching
    [ OtherEl "section"
        [ NodeEl "old" action "Old" "" (ofZ 0) (ofZ 0);
          OtherEl "p" [LabelEl "true" (ofZ 0) (ofZ 0)] ];
      LabelEl "false" (ofZ 0) (ofZ 0);
      OtherEl "footer" [] ]
  = [ OtherEl "section" [OtherEl "p" []]; OtherEl "footer" [] ].
Proof. reflexivity. Qed.



(** ** What [render] does not look at *)

Lemma stepsLoop_withoutActions (measure : Element -> number * number) (ss : list Step) :
  forall (cursorY : number) (wd : World),
    stepsLoop measure cursorY (filter (fun step => negb (isActionStep step)) ss) wd
    = stepsLoop measure cursorY ss wd.
Proof.
  induction ss as [|step rest IH]; intros cursorY wd; [done |].
  destruct step as [a | id label branches | sequential].
  - rewrite filter_cons_False by (cbn; tauto). cbn [stepsLoop stepBody].
    rewrite IH. reflexivity.
  - rewrite filter_cons_True by done. cbn [stepsLoop]. unfold bind.
    destruct (stepBody measure cursorY (SplitStep id label branches) wd) as [[cy | e] wd1];
      [apply IH | done].
  - rewrite filter_cons_True by done. cbn [stepsLoop]. unfold bind.
    destruct (stepBody measure cursorY (SequentialStep sequential) wd) as [[cy | e] wd1];
      [apply IH | done].
Qed.

(** X4: an action step at the top level of a plan is not drawn and does not
    move the cursor: rendering the plan and rendering it without its
    top-level action steps end the same way on the same page. *)
Theorem render_ignores_top_level_actions
    (measure : Element -> number * number)
    (canvasRect : list Element -> number * number) (plan : Plan) (wd : World) :
  render measure canvasRect (withoutActions plan) wd = render measure canvasRect plan wd.
Proof.
  rewrite !render_unfold. unfold withoutActions. cbn [steps].
  by rewrite stepsLoop_withoutActions.
Qed.

Lemma branchBody_headOnly (measure : Element -> number * number) (splitId : string)
    (cursorY : number) (br : Branch) (i : nat) (wd : World) :
  branchBody measure splitId cursorY (headOnly br) i wd
  = branchBody measure splitId cursorY br i wd.
Proof.
  unfold branchBody, headOnly. cbn [Branch_steps Branch_label].
  by rewrite lookup_take_lt by lia.
Qed.

Lemma forEachFrom_headOnly (measure : Element -> number * number) (splitId : string)
    (cursorY : number) (branches : list Branch) :
  forall (i : nat) (wd : World),
    forEachFrom (branchBody measure splitId cursorY) i (map headOnly branches) wd
    = forEachFrom (branchBody measure splitId cursorY) i branches wd.
Proof.
  induction branches as [|br rest IH]; intros i wd; [done |].
  cbn [map forEachFrom]. unfold bind. rewrite branchBody_headOnly.
  destruct (branchBody measure splitId cursorY br i wd) as [[[] | e] wd1]; [apply IH | done].
Qed.

Lemma stepBody_entryPoints (measure : Element -> number * number) (cursorY : number)
    (step : Step) (wd : World) :
  stepBody measure cursorY (entryPointsOf step) wd = stepBody measure cursorY step wd.
Proof.
  destruct step as [a | id label branches | sequential]; [done | | done].
  cbn [entryPointsOf stepBody]. unfold bind, forEach.
  destruct (createNode measure id (Opts.mk label None decision originX cursorY) wd)
    as [[[] | e] wd1]; [| done].
  rewrite forEachFrom_headOnly, length_map. reflexivity.
Qed.

Lemma stepsLoop_entryPoints (measure : Element -> number * number) (ss : list Step) :
  forall (cursorY : number) (wd : World),
    stepsLoop measure cursorY (map entryPointsOf ss) wd = stepsLoop measure cursorY ss wd.
Proof.
  induction ss as [|step rest IH]; intros cursorY wd; [done |].
  cbn [map stepsLoop]. unfold bind. rewrite stepBody_entryPoints.
  destruct (stepBody measure cursorY step wd) as [[cy | e] wd1]; [apply IH | done].
Qed.

(** X5: of the steps of a branch only the first is looked at: rendering a
    plan and rendering it with every branch cut down to its first step end
    the same way on the same page. *)
Theorem render_ignores_branch_tails
    (measure : Element -> number * number)
    (canvasRect : list Element -> number * number) (plan : Plan) (wd : World) :
  render measure canvasRect (entryPoints plan) wd = render measure canvasRect plan wd.
Proof.
  rewrite !render_unfold. unfold entryPoints. cbn [steps].
  by rewrite stepsLoop_entryPoints.
Qed.

(** ** Rendering over an earlier rendering *)

Lemma render_grows_from_cleared
    (measure : Element -> number * number)
    (canvasRect : list Element -> number * number) (plan : Plan) (wd : World) :
  grows (clearAll wd) (exec (render measure canvasRect plan) wd).
Proof.
  unfold exec. rewrite render_unfold.
  pose proof (growing_traversal measure (steps plan) originY (clearAll wd)) as Hgrow.
  by destruct (stepsLoop measure originY (steps plan) (clearAll wd)) as [[cy | e] wdL].
Qed.

(** X6: a plan that can be drawn is rendered over the page any earlier call
    of [render] left, with any plan and any sizes, exactly as on the page
    before that call: nothing of the earlier rendering remains. *)
Theorem render_replaces_earlier_rendering
    (measure1 measure2 : Element -> number * number)
    (canvasRect1 canvasRect2 : list Element -> number * number)
    (plan1 plan2 : Plan) (wd : World) :
  drawable plan2 ->
  render measure2 canvasRect2 plan2 (exec (render measure1 canvasRect1 plan1) wd)
  = render measure2 canvasRect2 plan2 wd.
Proof.
  intros Hplan.
  pose proof (render_grows_from_cleared measure1 canvasRect1 plan1 wd) as Hgrow.
  set (wd1 := exec (render measure1 canvasRect1 plan1) wd) in *.
  rewrite !render_unfold.
  rewrite (clearAll_after_traversal wd wd1 Hgrow).
  rewrite (framed_traversal measure2 (steps plan2) originY).
  destruct (stepsLoop_completes measure2 (steps plan2) Hplan originY (clearAll wd))
    as (cy & wdL & ->).
  reflexivity.
Qed.

Lemma render_replaces_earlier_rendering_witness :
  render fixedSize fixedBounds example
    (exec (render (fun _ => (ofZ 30, ofZ 11)) fixedBounds collidingPlan) blankPage)
  = render fixedSize fixedBounds example blankPage.
Proof.
  apply render_replaces_earlier_rendering.
  unfold drawable, example. cbn [steps].
  repeat constructor; by eexists.
Defined.

(** ** Keys of the node-box mapping *)

Lemma registry_dom (measure : Element -> number * number) (els : list Element) :
  forall m : gmap string NodeBBox.t,
    dom (foldl (register measure) m els) = dom m ∪ list_to_set (nodeIds els).
Proof.
  induction els as [|e els IH]; intros m.
  - cbn. by rewrite (right_id_L ∅ (∪)).
  - cbn [foldl]. rewrite IH.
    destruct e as [id ty t s x y | text x y | markup children]; cbn [register nodeIds omap nodeIdOf].
    + rewrite dom_insert_L. cbn. set_solver.
    + done.
    + done.
Qed.

Lemma size_list_to_set_bound (l : list string) :
  (size (list_to_set l : gset string) <= length l)%nat.
Proof.
  induction l as [|x l IH]; cbn [list_to_set length].
  - by rewrite size_empty.
  - destruct (decide (x ∈ (list_to_set l : gset string))) as [Hin | Hout].
    + replace ({[x]} ∪ list_to_set l : gset string) with (list_to_set l : gset string)
        by (apply set_eq; intros y; rewrite elem_of_union, elem_of_singleton;
            split; [tauto | intros [-> | ?]; tauto]).
      lia.
    + rewrite size_union, size_singleton; [lia |].
      intros y Hy1 Hy2. apply elem_of_singleton in Hy1 as ->. contradiction.
Qed.

(** The key [__proto__] is read back like any other, and is no entry. *)
Example protoPlan_has_no_entry :
  let wd' := exec (render fixedSize fixedBounds protoPlan) blankPage in
  outcome (render fixedSize fixedBounds protoPlan) blankPage = Normal tt
  /\ nodeIds (canvas wd') = ["__proto__"]
  /\ NodeBBox.el <$> nodePositions wd' !! "__proto__"
     = Some (NodeEl "__proto__" decision "Prototype?" "" (ofZ 140) (ofZ 160))
  /\ ownKeys (nodePositions wd') = ∅.
Proof. cbn zeta. split; [by vm_compute |]. split; [by vm_compute |]. split; [closed_num |]. by vm_compute. Qed.

(** X7: after [render] the entries of the node-box mapping are those of
    the identifiers of the nodes on the canvas, but for [__proto__], which
    is never an entry; so the mapping has at most as many entries as there
    are nodes, and as many when the identifiers of the nodes are pairwise
    different and none is [__proto__]. *)
Theorem nodePositions_keys_are_node_ids
    (measure : Element -> number * number)
    (canvasRect : list Element -> number * number) (plan : Plan) (wd : World) :
  let wd' := exec (render measure canvasRect plan) wd in
  ownKeys (nodePositions wd') = list_to_set (nodeIds (canvas wd')) ∖ {[protoKey]}
  /\ (size (ownKeys (nodePositions wd')) <= length (nodeIds (canvas wd')))%nat
  /\ (NoDup (nodeIds (canvas wd')) -> protoKey ∉ nodeIds (canvas wd') ->
      size (ownKeys (nodePositions wd')) = length (nodeIds (canvas wd'))).
Proof.
  cbn zeta.
  assert (Hdom : dom (nodePositions (exec (render measure canvasRect plan) wd))
                 = list_to_set (nodeIds (canvas (exec (render measure canvasRect plan) wd)))).
  { rewrite (render_registered measure canvasRect plan wd). unfold registry.
    rewrite registry_dom, dom_empty_L. by rewrite (left_id_L ∅ (∪)). }
  unfold ownKeys. rewrite Hdom. split; [done |]. split.
  - etrans; [| apply size_list_to_set_bound]. apply subseteq_size. set_solver.
  - intros Hnd Hproto.
    replace (list_to_set (nodeIds (canvas (exec (render measure canvasRect plan) wd)))
               ∖ {[protoKey]} : gset string)
      with (list_to_set (nodeIds (canvas (exec (render measure canvasRect plan) wd)))
              : gset string) by set_solver.
    by apply size_list_to_set.
Qed.

Lemma nodePositions_keys_are_node_ids_witness :
  size (ownKeys (nodePositions (exec (render fixedSize fixedBounds example) blankPage)))
  = length (nodeIds (canvas (exec (render fixedSize fixedBounds example) blankPage))).
Proof.
  apply (nodePositions_keys_are_node_ids fixedSize fixedBounds example blankPage).
  - apply (bool_decide_unpack (NoDup _)). vm_compute. exact I.
  - apply (bool_decide_unpack (_ ∉ _)). vm_compute. exact I.
Defined.

(** X8: two synthesized identifiers of sequential entries are the same
    string exactly when the entries have the same position in their blocks
    and the same tool name, so entries of different blocks share a key of
    the node-box mapping in that case and in no other. *)
Theorem sequentialId_eq_iff (i j : nat) (a b : string) :
  sequentialId i a = sequentialId j b <-> i = j /\ a = b.
Proof.
  split; [| by intros [-> ->]].
  intros H. pose proof (sequentialId_inj i j a b H) as ->.
  split; [done |]. unfold sequentialId in H.
  apply (String.app_inj "seq_") in H.
  apply (String.app_inj (pretty j)) in H.
  by apply (String.app_inj "_") in H.
Qed.

(** ** The quick parser *)

Lemma spanDigits_no_digit (s : string) : hasDigit s = false -> spanDigits s = ([], s).
Proof.
  destruct s as [|c r]; [done |]. cbn. intros H.
  apply orb_false_elim in H as [-> _]. done.
Qed.

Lemma matchUnsigned_no_digit (neg : bool) (s : string) :
  hasDigit s = false -> matchUnsigned neg s = None.
Proof. intros H. unfold matchUnsigned. by rewrite spanDigits_no_digit. Qed.

Lemma matchUnsigned_digit (neg : bool) (c : ascii) (r : string) :
  is_digit c = true -> is_Some (matchUnsigned neg (String c r)).
Proof.
  intros H. unfold matchUnsigned. cbn [spanDigits]. rewrite H.
  destruct (spanDigits r) as [ds rest].
  destruct rest as [|c' r']; [by eexists |].
  destruct (Ascii.eqb c' dot_char); by eexists.
Qed.

Lemma matchHere_digit (c : ascii) (r : string) :
  is_digit c = true -> is_Some (matchHere (String c r)).
Proof.
  intros H. unfold matchHere.
  destruct (Ascii.eqb c minus_char) eqn:Hc.
  - apply Ascii.eqb_eq in Hc as ->. discriminate.
  - by apply matchUnsigned_digit.
Qed.

Lemma matchAll_no_digit (s : string) :
  hasDigit s = false -> forall skip, matchAll skip s = [].
Proof.
  induction s as [|c r IH]; intros H skip; [done |].
  pose proof H as H'. cbn in H'. apply orb_false_elim in H' as [Hc Hr].
  cbn [matchAll]. destruct skip as [|k]; [| by apply IH].
  assert (Hhere : matchHere (String c r) = None).
  { unfold matchHere. rewrite (matchUnsigned_no_digit false _ H).
    destruct (Ascii.eqb c minus_char); [| done].
    by rewrite (matchUnsigned_no_digit true _ Hr). }
  rewrite Hhere. by apply IH.
Qed.

Lemma matchAll_digit (s : string) : matchAll 0 s = [] -> hasDigit s = false.
Proof.
  induction s as [|c r IH]; [done |].
  cbn [matchAll hasDigit]. destruct (is_digit c) eqn:Hc.
  - destruct (matchHere_digit c r Hc) as [t ->]. discriminate.
  - destruct (matchHere (String c r)); [discriminate | exact IH].
Qed.

(** X9: the parser of [bezierMidpoint] reads no number from a text exactly
    when the text holds no decimal digit, and then the midpoint is the
    point (NaN, NaN). *)
Theorem matchNumbers_empty_iff_no_digit (text : string) :
  (matchNumbers text = [] <-> hasDigit text = false)
  /\ (hasDigit text = false -> bezierMidpoint text = Point.mk NaN NaN).
Proof.
  assert (Hiff : matchNumbers text = [] <-> hasDigit text = false).
  { unfold matchNumbers. split.
    - intros H. apply map_eq_nil in H. by apply matchAll_digit.
    - intros H. by rewrite (matchAll_no_digit text H 0). }
  split; [exact Hiff |].
  intros H. apply Hiff in H. unfold bezierMidpoint. by rewrite H.
Qed.

Lemma matchNumbers_empty_iff_no_digit_witness :
  bezierMidpoint "M x y C -, ., e+" = Point.mk NaN NaN.
Proof.
  apply (matchNumbers_empty_iff_no_digit "M x y C -, ., e+"). reflexivity.
Defined.

Lemma Binary64_add_NaN_r (a : Binary64.double) : Binary64.add a Binary64.NaN = Binary64.NaN.
Proof. by destruct a. Qed.

(** X10: in the arithmetic of doubles a coordinate of the point that
    [bezierMidpoint] returns is NaN when the text holds too few numbers for
    it, fewer than eight for y and fewer than seven for x, and numbers
    after the eighth are not looked at; but eight numbers do not make the
    coordinates numbers: a numeral beyond the doubles is read as an
    infinity, and the sum of the two infinities is NaN. *)
Theorem bezierMidpoint_NaN_coordinates :
  (forall text : string,
      ((length (Binary64.matchNumbers text) < 8)%nat ->
       Binary64.Point.y (Binary64.bezierMidpoint text) = Binary64.NaN)
      /\ ((length (Binary64.matchNumbers text) < 7)%nat ->
          Binary64.Point.x (Binary64.bezierMidpoint text) = Binary64.NaN)
      /\ (forall text' : string,
             take 8 (Binary64.matchNumbers text') = take 8 (Binary64.matchNumbers text) ->
             Binary64.bezierMidpoint text' = Binary64.bezierMidpoint text))
  /\ Binary64.matchNumbers overflowingPath
     = [ S754_infinity false; Binary64.ofZ 0; S754_infinity true; Binary64.ofZ 0;
         Binary64.ofZ 0; Binary64.ofZ 0; Binary64.ofZ 0; Binary64.ofZ 0 ]
  /\ Binary64.bezierMidpoint overflowingPath = Binary64.Point.mk Binary64.NaN (Binary64.ofZ 0).
Proof.
  split; [| split; by vm_compute].
  intros text. split; [| split].
  - intros Hlen. unfold Binary64.bezierMidpoint. cbn [Binary64.Point.y].
    rewrite (lookup_ge_None_2 (Binary64.matchNumbers text) 7) by lia.
    cbn [Binary64.ToNumber]. by rewrite !Binary64_add_NaN_r.
  - intros Hlen. unfold Binary64.bezierMidpoint. cbn [Binary64.Point.x].
    rewrite (lookup_ge_None_2 (Binary64.matchNumbers text) 6) by lia.
    cbn [Binary64.ToNumber]. by rewrite !Binary64_add_NaN_r.
  - intros text' H. unfold Binary64.bezierMidpoint.
    assert (Hi : forall i, (i < 8)%nat ->
                 Binary64.matchNumbers text' !! i = Binary64.matchNumbers text !! i).
    { intros i Hi. rewrite <-(lookup_take_lt (Binary64.matchNumbers text') 8 i Hi), H.
      by apply lookup_take_lt. }
    by rewrite !Hi by lia.
Qed.

Lemma bezierMidpoint_NaN_coordinates_witness :
  Binary64.Point.y (Binary64.bezierMidpoint "M 1 2 C 3 4, 5 6, 7") = Binary64.NaN.
Proof.
  apply (proj1 (proj1 bezierMidpoint_NaN_coordinates "M 1 2 C 3 4, 5 6, 7")).
  vm_compute. lia.
Defined.

(** ** How much a plan draws *)

Lemma nodesOf_imap_nodes {A} (g : nat -> A -> Element) (l : list A) :
  (forall i a, isNode (g i a) = true) -> nodesOf (imap g l) = imap g l.
Proof.
  revert g. induction l as [|a rest IH]; intros g Hg; [done |].
  cbn [imap]. unfold nodesOf in *. rewrite filter_cons_True by (by rewrite Hg).
  f_equal. apply IH. intros i a'. apply Hg.
Qed.

Lemma labelsOf_imap_nodes {A} (g : nat -> A -> Element) (l : list A) :
  (forall i a, isNode (g i a) = true) -> labelsOf (imap g l) = [].
Proof.
  revert g. induction l as [|a rest IH]; intros g Hg; [done |].
  cbn [imap]. unfold labelsOf in *. cbn [omap list_omap].
  specialize (Hg 0%nat a) as Ha. destruct (g 0%nat a); try discriminate.
  cbn. apply IH. intros i a'. apply Hg.
Qed.

Lemma stepBody_counts (measure : Element -> number * number) (cursorY : number)
    (step : Step) (wd : World) :
  branchesDrawable step ->
  exists cy wd',
    stepBody measure cursorY step wd = (Normal cy, wd')
    /\ length (nodesOf (canvas wd')) = (length (nodesOf (canvas wd)) + nodeCount step)%nat
    /\ length (svg wd') = (length (svg wd) + wireCount step)%nat
    /\ labelsOf (canvas wd') = (labelsOf (canvas wd) ++ stepLabels step)%list.
Proof.
  intros Hstep. destruct step as [a | id label branches | sequential].
  - exists cursorY, wd. cbn. rewrite app_nil_r. repeat split; lia.
  - destruct (firstActions_exist branches Hstep) as [acts Hacts].
    destruct (splitStep_run measure cursorY id label branches acts wd Hacts)
      as (wd' & news & Hrun & Hc & Hn & Hl & Hs).
    eexists _, wd'. split; [exact Hrun |]. split; [| split].
    + rewrite Hc, nodesOf_app.
      change (decisionNode cursorY id label :: news)
        with ([decisionNode cursorY id label] ++ news)%list.
      rewrite nodesOf_app, Hn, !length_app, length_imap.
      rewrite <-(Forall2_length _ _ _ Hacts).
      change (nodesOf [decisionNode cursorY id label]) with [decisionNode cursorY id label].
      cbn [length nodeCount]. lia.
    + exact Hs.
    + rewrite Hc, labelsOf_app.
      change (labelsOf (decisionNode cursorY id label :: news)) with (labelsOf news).
      by rewrite Hl.
  - destruct (sequentialStep_run measure cursorY sequential wd) as (wd' & Hrun & Hc & Hs).
    eexists _, wd'. split; [exact Hrun |]. split; [| split].
    + rewrite Hc, nodesOf_app, length_app.
      rewrite (nodesOf_imap_nodes (inlineNode cursorY) sequential), length_imap by done. done.
    + rewrite Hs, length_app, links_length, length_imap. done.
    + rewrite Hc, labelsOf_app, (labelsOf_imap_nodes (inlineNode cursorY) sequential) by done.
      cbn. by rewrite app_nil_r.
Qed.

Lemma stepsLoop_counts (measure : Element -> number * number) (ss : list Step) :
  Forall branchesDrawable ss ->
  forall (cursorY : number) (wd : World),
    exists cy wd',
      stepsLoop measure cursorY ss wd = (Normal cy, wd')
      /\ length (nodesOf (canvas wd'))
         = (length (nodesOf (canvas wd)) + sum_list (map nodeCount ss))%nat
      /\ length (svg wd') = (length (svg wd) + sum_list (map wireCount ss))%nat
      /\ labelsOf (canvas wd') = (labelsOf (canvas wd) ++ concat (map stepLabels ss))%list.
Proof.
  induction 1 as [|step rest Hstep _ IH]; intros cursorY wd.
  - exists cursorY, wd. cbn. rewrite app_nil_r. repeat split; lia.
  - destruct (stepBody_counts measure cursorY step wd Hstep)
      as (cy1 & wd1 & Hrun1 & Hn1 & Hs1 & Hl1).
    destruct (IH cy1 wd1) as (cy & wd' & Hrun & Hn & Hs & Hl).
    exists cy, wd'. split; [| split; [| split]].
    + cbn [stepsLoop]. by rewrite (bind_normal _ _ _ _ _ Hrun1).
    + rewrite Hn, Hn1. cbn. lia.
    + rewrite Hs, Hs1. cbn. lia.
    + rewrite Hl, Hl1. cbn. by rewrite app_assoc.
Qed.

(** X11: for a plan that can be drawn, [render] leaves on the canvas one
    node per split, per branch of a split and per entry of a sequential
    block, in the wires layer one wire per branch and one wire less than
    entries per non-empty sequential block, and on the canvas the labels of
    the branches in plan order; nothing else counts as node, label or wire. *)
Theorem render_counts
    (measure : Element -> number * number)
    (canvasRect : list Element -> number * number) (plan : Plan) (wd : World) :
  drawable plan ->
  let wd' := exec (render measure canvasRect plan) wd in
  length (nodesOf (canvas wd')) = sum_list (map nodeCount (steps plan))
  /\ length (svg wd') = sum_list (map wireCount (steps plan))
  /\ labelsOf (canvas wd') = concat (map stepLabels (steps plan)).
Proof.
  intros Hplan. cbn zeta. unfold exec. rewrite render_unfold.
  destruct (stepsLoop_counts measure (steps plan) Hplan originY (clearAll wd))
    as (cy & wdL & -> & Hn & Hs & Hl).
  cbn [snd canvas svg setViewBox].
  destruct (clearAll_cleared wd) as (Hn0 & Hl0 & Hs0 & _).
  rewrite Hn, Hs, Hl, Hn0, Hl0, Hs0. done.
Qed.

Lemma render_counts_witness :
  length (nodesOf (canvas (exec (render fixedSize fixedBounds collidingPlan) blankPage)))
  = 2%nat
  /\ length (svg (exec (render fixedSize fixedBounds collidingPlan) blankPage)) = 0%nat
  /\ labelsOf (canvas (exec (render fixedSize fixedBounds collidingPlan) blankPage)) = [].
Proof.
  apply (render_counts fixedSize fixedBounds collidingPlan blankPage).
  repeat constructor.
Defined.

(** ** The wires and labels of a split *)

Section FanOutFacts.

Variable measure : Element -> number * number.

Lemma branchBody_draws (splitId : string) (cursorY : number)
    (br : Branch) (a : Action.t) (i : nat) (src : NodeBBox.t) (wd : World) :
  firstAction br = Some a ->
  nodePositions wd !! splitId = Some src ->
  let b := branchBox measure cursorY i a in
  let src' := if decide (branchId i a = splitId) then b else src in
  let wire := branchWire src' b in
  exists wd',
    branchBody measure splitId cursorY br i wd = (Normal tt, wd')
    /\ canvas wd' = (canvas wd ++ [branchNode cursorY i a;
                                   branchLabel (Branch_label br) wire])%list
    /\ svg wd' = (svg wd ++ [wire])%list
    /\ nodePositions wd' !! splitId = Some src'.
Proof.
  intros Hfirst Hsplit b src' wire. unfold branchBody.
  unfold firstAction in Hfirst.
  destruct (Branch_steps br !! 0%nat) as [[a' | |]|]; try discriminate.
  injection Hfirst as ->.
  cbn [fmap option_fmap option_map]. fold (branchId i a).
  set (e := branchNode cursorY i a).
  set (wd1 := setBox (branchId i a) b (appendChild e wd)).
  assert (Hid : nodePositions wd1 !! branchId i a = Some b) by apply lookup_insert_eq.
  assert (Hsrc : nodePositions wd1 !! splitId = Some src').
  { unfold wd1, setBox, src'. cbn [nodePositions].
    destruct (decide (branchId i a = splitId)) as [<- | Hne].
    - apply lookup_insert_eq.
    - by rewrite lookup_insert_ne. }
  eexists. split.
  - rewrite (bind_normal _ _ wd wd1 tt) by apply createNode_branch.
    erewrite bind_normal by (apply boxOf_run, Hsrc).
    erewrite bind_normal by (apply boxOf_run, Hid).
    erewrite bind_normal by apply addWire_run.
    apply labelAt_run.
  - split; [| split].
    + cbn. by rewrite <-app_assoc.
    + reflexivity.
    + exact Hsrc.
Qed.

Lemma branches_draw (splitId : string) (cursorY : number) (branches : list Branch) :
  forall (acts : list Action.t) (i0 : nat) (src : NodeBBox.t) (wd : World),
    Forall2 (fun br a => firstAction br = Some a) branches acts ->
    nodePositions wd !! splitId = Some src ->
    let ds := fanOut measure splitId cursorY src i0 (zip branches acts) in
    exists wd',
      forEachFrom (branchBody measure splitId cursorY) i0 branches wd = (Normal tt, wd')
      /\ canvas wd' = (canvas wd ++ drawnElements ds)%list
      /\ svg wd' = (svg wd ++ map drawnWire ds)%list.
Proof.
  induction branches as [|br rest IH]; intros acts i0 src wd Hacts Hsrc.
  - apply Forall2_nil_inv_l in Hacts as ->. exists wd. cbn. by rewrite !app_nil_r.
  - apply Forall2_cons_inv_l in Hacts as (a & acts' & Ha & Hrest & ->).
    destruct (branchBody_draws splitId cursorY br a i0 src wd Ha Hsrc)
      as (wd1 & Hrun & Hc & Hs & Hsrc1).
    destruct (IH acts' (S i0) _ wd1 Hrest Hsrc1) as (wd' & Hrun' & Hc' & Hs').
    exists wd'. split; [| split].
    + cbn [forEachFrom]. by rewrite (bind_normal _ _ _ _ _ Hrun).
    + rewrite Hc', Hc, <-app_assoc. reflexivity.
    + rewrite Hs', Hs, <-app_assoc. reflexivity.
Qed.

Lemma splitStep_draws (cursorY : number) (id label : string)
    (branches : list Branch) (acts : list Action.t) (wd : World) :
  Forall2 (fun br a => firstAction br = Some a) branches acts ->
  let ds := fanOut measure id cursorY (decisionBox measure cursorY id label) 0
              (zip branches acts) in
  exists wd',
    exec (stepBody measure cursorY (SplitStep id label branches)) wd = wd'
    /\ canvas wd' = (canvas wd ++ decisionNode cursorY id label :: drawnElements ds)%list
    /\ svg wd' = (svg wd ++ map drawnWire ds)%list.
Proof.
  intros Hacts ds.
  set (e := decisionNode cursorY id label).
  set (wd1 := setBox id (decisionBox measure cursorY id label) (appendChild e wd)).
  destruct (branches_draw id cursorY branches acts 0 (decisionBox measure cursorY id label)
              wd1 Hacts) as (wd' & Hrun & Hc & Hs).
  { apply lookup_insert_eq. }
  exists wd'. split; [| split].
  - unfold exec. cbn [stepBody].
    rewrite (bind_normal _ _ wd wd1 tt) by apply createNode_run.
    unfold forEach. by rewrite (bind_normal _ _ _ _ _ Hrun).
  - rewrite Hc. cbn. by rewrite <-app_assoc.
  - exact Hs.
Qed.

Lemma fanOut_without_collision (splitId : string) (cursorY : number) (src : NodeBBox.t)
    (bas : list (Branch * Action.t)) :
  forall i0 : nat,
    (forall (i : nat) (br : Branch) (a : Action.t),
        bas !! i = Some (br, a) -> branchId (i0 + i) a <> splitId) ->
    fanOut measure splitId cursorY src i0 bas
    = imap (fun i '(br, a) =>
              let wire := branchWire src (branchBox measure cursorY (i0 + i) a) in
              mkDrawn (branchNode cursorY (i0 + i) a) wire
                (branchLabel (Branch_label br) wire)) bas.
Proof.
  induction bas as [|[br a] rest IH]; intros i0 Hne; [done |].
  cbn [fanOut imap]. rewrite Nat.add_0_r.
  rewrite decide_False by (specialize (Hne 0%nat br a eq_refl); by rewrite Nat.add_0_r in Hne).
  f_equal. rewrite IH.
  - apply imap_ext. intros i [br' a'] _. cbn. by rewrite Nat.add_succ_r.
  - intros i br' a' Hi. rewrite Nat.add_succ_l, <-Nat.add_succ_r. by apply (Hne (S i) br' a').
Qed.

Lemma fanOut_collision (splitId : string) (cursorY : number) (bas : list (Branch * Action.t)) :
  forall (src : NodeBBox.t) (i0 k : nat) (br : Branch) (a : Action.t),
    bas !! k = Some (br, a) ->
    branchId (i0 + k) a = splitId ->
    drawnWire <$> fanOut measure splitId cursorY src i0 bas !! k
    = Some (branchWire (branchBox measure cursorY (i0 + k) a)
                       (branchBox measure cursorY (i0 + k) a)).
Proof.
  induction bas as [|[br0 a0] rest IH]; intros src i0 k br a Hk Hid; [done |].
  destruct k as [|k].
  - injection Hk as -> ->. rewrite Nat.add_0_r in *. cbn.
    by rewrite decide_True.
  - cbn [fanOut lookup list_lookup]. cbn in Hk.
    rewrite Nat.add_succ_r, <-Nat.add_succ_l in *.
    by apply (IH _ (S i0) k br a).
Qed.

End FanOutFacts.

Lemma fanOut_labels (measure : Element -> number * number) (splitId : string)
    (cursorY : number) (bas : list (Branch * Action.t)) :
  forall (src : NodeBBox.t) (i0 : nat),
    Forall2 (fun ba dr => drawnLabel dr = branchLabel (Branch_label (fst ba)) (drawnWire dr))
            bas (fanOut measure splitId cursorY src i0 bas).
Proof.
  induction bas as [|[br a] rest IH]; intros src i0; [constructor |].
  cbn [fanOut]. constructor; [done | apply IH].
Qed.

Lemma wires_from_one_box (measure : Element -> number * number) (cursorY : number)
    (src : NodeBBox.t) (branches : list Branch) :
  forall (acts : list Action.t) (i0 : nat),
    length branches = length acts ->
    map drawnWire
      (imap (fun i '(br, a) =>
               let wire := branchWire src (branchBox measure cursorY (i0 + i) a) in
               mkDrawn (branchNode cursorY (i0 + i) a) wire
                 (branchLabel (Branch_label br) wire)) (zip branches acts))
    = imap (fun i a => branchWire src (branchBox measure cursorY (i0 + i) a)) acts.
Proof.
  induction branches as [|br rest IH]; intros [|a acts] i0 Hlen; try done.
  cbn [zip zip_with imap map]. f_equal.
  injection Hlen as Hlen.
  etrans; [| etrans; [apply (IH acts (S i0) Hlen) |]].
  - f_equal. apply imap_ext. intros i [br' a'] _. cbn. by rewrite Nat.add_succ_r.
  - apply imap_ext. intros i a' _. cbn. by rewrite Nat.add_succ_r.
Qed.

(** X12: in a split each of whose branches begins with an action, every
    branch label is placed at the point [bezierMidpoint] computes for the
    wire drawn with it, and the canvas receives the decision node followed,
    branch by branch, by the branch node and its label. *)
Theorem split_labels_at_wire_midpoints
    (measure : Element -> number * number) (cursorY : number) (id label : string)
    (branches : list Branch) (acts : list Action.t) (wd : World) :
  Forall2 (fun br a => firstAction br = Some a) branches acts ->
  exists ds : list Drawn,
    canvas (exec (stepBody measure cursorY (SplitStep id label branches)) wd)
    = (canvas wd ++ decisionNode cursorY id label :: drawnElements ds)%list
    /\ svg (exec (stepBody measure cursorY (SplitStep id label branches)) wd)
       = (svg wd ++ map drawnWire ds)%list
    /\ Forall2 (fun br dr =>
                  drawnLabel dr
                  = LabelEl (Branch_label br)
                      (Point.x (bezierMidpoint (d (drawnWire dr))))
                      (Point.y (bezierMidpoint (d (drawnWire dr)))))
               branches ds.
Proof.
  intros Hacts.
  destruct (splitStep_draws measure cursorY id label branches acts wd Hacts)
    as (wd' & -> & Hc & Hs).
  eexists. split; [exact Hc |]. split; [exact Hs |].
  pose proof (fanOut_labels measure id cursorY (zip branches acts)
                (decisionBox measure cursorY id label) 0) as HF.
  rewrite <-(fst_zip branches acts) at 1 by (rewrite (Forall2_length _ _ _ Hacts); lia).
  apply Forall2_fmap_l. eapply Forall2_impl; [exact HF |].
  intros ba dr H. exact H.
Qed.

Lemma split_labels_at_wire_midpoints_witness :
  exists ds : list Drawn,
    canvas (exec (stepBody fixedSize (ofZ 160) (SplitStep "level" "Level?" threeWay)) blankPage)
    = decisionNode (ofZ 160) "level" "Level?" :: drawnElements ds
    /\ length ds = 3%nat.
Proof.
  destruct (split_labels_at_wire_midpoints fixedSize (ofZ 160) "level" "Level?"
              threeWay threeWayActions blankPage) as (ds & Hc & _ & HF).
  { repeat constructor; reflexivity. }
  exists ds. split; [exact Hc |].
  apply Forall2_length in HF. rewrite <-HF. reflexivity.
Defined.

(** X13: in a split each of whose branches begins with an action and none
    of whose branch nodes has the identifier of the split, the wire of the
    branch at index i is the curve [pathBetween] gives, with offset 70, from
    the box of the decision node to the box of the node of that branch. *)
Theorem split_wires_fan_out
    (measure : Element -> number * number) (cursorY : number) (id label : string)
    (branches : list Branch) (acts : list Action.t) (wd : World) :
  Forall2 (fun br a => firstAction br = Some a) branches acts ->
  (forall (i : nat) (a : Action.t), acts !! i = Some a -> branchId i a <> id) ->
  svg (exec (stepBody measure cursorY (SplitStep id label branches)) wd)
  = (svg wd
     ++ imap (fun i a =>
                mkPath (pathBetween (decisionBox measure cursorY id label)
                          (branchBox measure cursorY i a) (ofZ 70))) acts)%list.
Proof.
  intros Hacts Hne.
  destruct (splitStep_draws measure cursorY id label branches acts wd Hacts)
    as (wd' & -> & _ & ->).
  f_equal.
  rewrite (fanOut_without_collision measure id cursorY).
  - apply (wires_from_one_box measure cursorY _ branches acts 0).
    by apply Forall2_length in Hacts.
  - intros i br a Hi. apply (Hne i a).
    apply lookup_zip_with_Some in Hi as (br' & a' & Heq & _ & Ha).
    by injection Heq as -> ->.
Qed.

Lemma split_wires_fan_out_witness :
  svg (exec (stepBody fixedSize (ofZ 160) (SplitStep "level" "Level?" threeWay)) blankPage)
  = imap (fun i a =>
            mkPath (pathBetween (decisionBox fixedSize (ofZ 160) "level" "Level?")
                      (branchBox fixedSize (ofZ 160) i a) (ofZ 70))) threeWayActions.
Proof.
  apply (split_wires_fan_out fixedSize (ofZ 160) "level" "Level?"
           threeWay threeWayActions blankPage).
  - repeat constructor; reflexivity.
  - intros [|[|[|i]]] a H; cbn in H; try discriminate; injection H as <-; discriminate.
Defined.

(** X14: when the node of a branch has the identifier of the split itself,
    the entry of the decision node in the node-box mapping is replaced before
    the wire is routed, and the wire of that branch runs from the node of the
    branch to that same node instead of from the decision node. *)
Theorem split_wire_of_colliding_branch
    (measure : Element -> number * number) (cursorY : number) (id label : string)
    (branches : list Branch) (acts : list Action.t) (k : nat) (a : Action.t) (wd : World) :
  Forall2 (fun br a => firstAction br = Some a) branches acts ->
  acts !! k = Some a ->
  branchId k a = id ->
  drop (length (svg wd))
    (svg (exec (stepBody measure cursorY (SplitStep id label branches)) wd)) !! k
  = Some (mkPath (pathBetween (branchBox measure cursorY k a)
                    (branchBox measure cursorY k a) (ofZ 70))).
Proof.
  intros Hacts Hk Hid.
  destruct (splitStep_draws measure cursorY id label branches acts wd Hacts)
    as (wd' & -> & _ & ->).
  rewrite drop_app_length, list_lookup_fmap.
  destruct (lookup_lt_is_Some_2 branches k) as [br Hbr].
  { rewrite (Forall2_length _ _ _ Hacts). by eapply lookup_lt_Some. }
  apply (fanOut_collision measure id cursorY (zip branches acts) _ 0 k br a).
  - apply lookup_zip_with_Some. by exists br, a.
  - exact Hid.
Qed.

Lemma split_wire_of_colliding_branch_witness :
  drop 0 (svg (exec (stepBody fixedSize (ofZ 160) (SplitStep "gate" "Gate?" twoWay))
                 blankPage)) !! 1%nat
  = Some (mkPath (pathBetween (branchBox fixedSize (ofZ 160) 1
                                 (Action.mk "gate" None "Reject" None None))
                    (branchBox fixedSize (ofZ 160) 1
                       (Action.mk "gate" None "Reject" None None)) (ofZ 70))).
Proof.
  apply (split_wire_of_colliding_branch fixedSize (ofZ 160) "gate" "Gate?"
           twoWay twoWayActions 1 (Action.mk "gate" None "Reject" None None) blankPage).
  - repeat constructor; reflexivity.
  - reflexivity.
  - reflexivity.
Defined.

(** ** The places of the nodes *)

Lemma ofZ_add (a b : Z) : (ofZ a + ofZ b)%num = ofZ (a + b).
Proof. unfold ofZ. cbn. by rewrite Z2Qc_inj_add. Qed.

Lemma ofZ_sub (a b : Z) : (ofZ a - ofZ b)%num = ofZ (a - b).
Proof. unfold ofZ. cbn. by rewrite Z2Qc_inj_sub. Qed.

Lemma ofZ_mul (a b : Z) : (ofZ a * ofZ b)%num = ofZ (a * b).
Proof. unfold ofZ. cbn. by rewrite Z2Qc_inj_mul. Qed.

Lemma ofZ_inj (a b : Z) : ofZ a = ofZ b -> a = b.
Proof. unfold ofZ. intros H. apply Z2Qc_inj. congruence. Qed.

Lemma toPlace_inj : Inj (=) (=) toPlace.
Proof.
  intros [x1 y1] [x2 y2] H. unfold toPlace in H. cbn [fst snd] in H.
  assert (Hx : ofZ x1 = ofZ x2) by congruence.
  assert (Hy : ofZ y1 = ofZ y2) by congruence.
  apply ofZ_inj in Hx, Hy. by subst.
Qed.

Lemma nodePlaces_app (l k : list Element) :
  nodePlaces (l ++ k) = (nodePlaces l ++ nodePlaces k)%list.
Proof. apply omap_app. Qed.

Lemma nodePlaces_nodesOf (els : list Element) : nodePlaces (nodesOf els) = nodePlaces els.
Proof.
  unfold nodePlaces, nodesOf. induction els as [|e els IH]; [done |].
  destruct e as [id ty t s x y | text x y | markup children].
  - rewrite filter_cons_True by done. cbn. by rewrite IH.
  - by rewrite filter_cons_False by (cbn; tauto).
  - by rewrite filter_cons_False by (cbn; tauto).
Qed.

Lemma nodePlaces_branchNodes (z : Z) (acts : list Action.t) :
  forall k : nat,
    nodePlaces (imap (fun i => branchNode (ofZ z) (k + i)) acts)
    = toPlace <$> ((fun i => (460, z + 140 * Z.of_nat i)) <$> seq k (length acts)).
Proof.
  induction acts as [|a rest IH]; intros k; [done |].
  cbn [imap length seq fmap list_fmap nodePlaces omap list_omap placeOf branchNode].
  rewrite Nat.add_0_r. f_equal.
  - unfold toPlace, originX, columnWidth, index, branchGap. cbn [fst snd].
    rewrite ofZ_mul, !ofZ_add. do 3 f_equal. lia.
  - rewrite <-(IH (S k)). unfold nodePlaces. f_equal.
    apply imap_ext. intros i a' _. cbn. f_equal. lia.
Qed.

Lemma nodePlaces_inlineNodes (z : Z) (entries : list Inline.t) :
  forall k : nat,
    nodePlaces (imap (fun i => inlineNode (ofZ z) (k + i)) entries)
    = toPlace <$> ((fun i => (140, z + 120 * Z.of_nat i)) <$> seq k (length entries)).
Proof.
  induction entries as [|a rest IH]; intros k; [done |].
  cbn [imap length seq fmap list_fmap nodePlaces omap list_omap placeOf inlineNode].
  rewrite Nat.add_0_r. f_equal.
  - unfold toPlace, originX, index, rowHeight. cbn [fst snd].
    rewrite ofZ_mul, !ofZ_add. do 3 f_equal. lia.
  - rewrite <-(IH (S k)). unfold nodePlaces. f_equal.
    apply imap_ext. intros i a' _. cbn. f_equal. lia.
Qed.

Lemma stepBody_places (measure : Element -> number * number) (z : Z)
    (step : Step) (wd : World) :
  branchesDrawable step ->
  exists wd',
    stepBody measure (ofZ z) step wd = (Normal (ofZ (z + advance step)), wd')
    /\ nodePlaces (canvas wd') = (nodePlaces (canvas wd) ++ (toPlace <$> stepPlaces z step))%list.
Proof.
  intros Hstep. destruct step as [a | id label branches | sequential].
  - exists wd. cbn. rewrite Z.add_0_r, app_nil_r. done.
  - destruct (firstActions_exist branches Hstep) as [acts Hacts].
    destruct (splitStep_run measure (ofZ z) id label branches acts wd Hacts)
      as (wd' & news & Hrun & Hc & Hn & _).
    exists wd'. split.
    + rewrite Hrun. do 2 f_equal.
      unfold index, branchGap, verticalPad. cbn [advance].
      rewrite ofZ_sub, ofZ_mul, !ofZ_add. f_equal.
    + rewrite Hc, nodePlaces_app. f_equal. cbn [stepPlaces fmap list_fmap].
      change (nodePlaces (decisionNode (ofZ z) id label :: news))
        with ((originX, ofZ z) :: nodePlaces news).
      f_equal.
      rewrite <-nodePlaces_nodesOf, Hn, (Forall2_length _ _ _ Hacts).
      apply (nodePlaces_branchNodes z acts 0).
  - destruct (sequentialStep_run measure (ofZ z) sequential wd) as (wd' & Hrun & Hc & _).
    exists wd'. split.
    + rewrite Hrun. do 2 f_equal.
      unfold index, rowHeight, blockGap. cbn [advance].
      rewrite ofZ_mul, !ofZ_add. f_equal.
    + rewrite Hc, nodePlaces_app. f_equal.
      apply (nodePlaces_inlineNodes z sequential 0).
Qed.

Lemma stepsLoop_places (measure : Element -> number * number) (ss : list Step) :
  Forall branchesDrawable ss ->
  forall (z : Z) (wd : World),
    exists cy wd',
      stepsLoop measure (ofZ z) ss wd = (Normal cy, wd')
      /\ nodePlaces (canvas wd') = (nodePlaces (canvas wd) ++ (toPlace <$> planPlaces z ss))%list.
Proof.
  induction 1 as [|step rest Hstep _ IH]; intros z wd.
  - exists (ofZ z), wd. cbn. by rewrite app_nil_r.
  - destruct (stepBody_places measure z step wd Hstep) as (wd1 & Hrun1 & Hp1).
    destruct (IH (z + advance step) wd1) as (cy & wd' & Hrun & Hp).
    exists cy, wd'. split.
    + cbn [stepsLoop]. by rewrite (bind_normal _ _ _ _ _ Hrun1).
    + rewrite Hp, Hp1. cbn [planPlaces]. by rewrite fmap_app, app_assoc.
Qed.

Lemma advance_positive (step : Step) : 0 <= advance step.
Proof. destruct step; cbn; lia. Qed.

Lemma stepPlaces_rows (z : Z) (step : Step) (p : Z * Z) :
  p ∈ stepPlaces z step -> z <= snd p < z + advance step.
Proof.
  destruct step as [a | id label branches | sequential]; cbn [stepPlaces advance].
  - intros H. by apply elem_of_nil in H.
  - intros H. apply elem_of_cons in H as [-> | H]; [cbn; lia |].
    apply list_elem_of_fmap in H as (i & -> & Hi). apply elem_of_seq in Hi. cbn. lia.
  - intros H. apply list_elem_of_fmap in H as (i & -> & Hi). apply elem_of_seq in Hi. cbn. lia.
Qed.

Lemma planPlaces_rows (ss : list Step) :
  forall (z : Z) (p : Z * Z), p ∈ planPlaces z ss -> z <= snd p.
Proof.
  induction ss as [|step rest IH]; intros z p H; [by apply elem_of_nil in H |].
  cbn [planPlaces] in H. apply elem_of_app in H as [H | H].
  - apply stepPlaces_rows in H. lia.
  - apply IH in H. pose proof (advance_positive step). lia.
Qed.

Lemma stepPlaces_NoDup (z : Z) (step : Step) : NoDup (stepPlaces z step).
Proof.
  destruct step as [a | id label branches | sequential]; cbn [stepPlaces].
  - constructor.
  - constructor.
    + intros H. apply list_elem_of_fmap in H as (i & Hi & _). discriminate.
    + apply NoDup_fmap_2; [| apply NoDup_seq].
      intros i j H. injection H as H. lia.
  - apply NoDup_fmap_2; [| apply NoDup_seq].
    intros i j H. injection H as H. lia.
Qed.

Lemma planPlaces_NoDup (ss : list Step) : forall z : Z, NoDup (planPlaces z ss).
Proof.
  induction ss as [|step rest IH]; intros z; cbn [planPlaces]; [constructor |].
  apply NoDup_app. split; [apply stepPlaces_NoDup |]. split; [| apply IH].
  intros p Hp Hp'. apply stepPlaces_rows in Hp. apply planPlaces_rows in Hp'. lia.
Qed.

(** X15: for a plan that can be drawn, the nodes on the canvas are, step
    after step from y = 160, a decision node at (140, y) with the branch
    nodes at (460, y + 140 i), or the nodes of a sequential block at
    (140, y + 120 i), the next step starting (n - 1) * 140 + 200 or
    n * 120 + 40 further down; all coordinates are integers and no two
    nodes are placed at the same point. *)
Theorem render_places
    (measure : Element -> number * number)
    (canvasRect : list Element -> number * number) (plan : Plan) (wd : World) :
  drawable plan ->
  nodePlaces (canvas (exec (render measure canvasRect plan) wd))
  = toPlace <$> planPlaces 160 (steps plan)
  /\ NoDup (nodePlaces (canvas (exec (render measure canvasRect plan) wd))).
Proof.
  intros Hplan.
  assert (Hp : nodePlaces (canvas (exec (render measure canvasRect plan) wd))
               = toPlace <$> planPlaces 160 (steps plan)).
  { unfold exec. rewrite render_unfold.
    destruct (stepsLoop_places measure (steps plan) Hplan 160 (clearAll wd))
      as (cy & wdL & Hrun & Hp).
    change (ofZ 160) with originY in Hrun. rewrite Hrun.
    cbn [snd canvas setViewBox]. rewrite Hp.
    rewrite <-nodePlaces_nodesOf, (proj1 (clearAll_cleared wd)). done. }
  split; [exact Hp |].
  rewrite Hp. apply NoDup_fmap_2; [apply toPlace_inj | apply planPlaces_NoDup].
Qed.

Lemma render_places_witness :
  nodePlaces (canvas (exec (render fixedSize fixedBounds example) blankPage))
  = toPlace <$> [(140, 160); (460, 160); (460, 300);
                 (140, 500); (140, 620); (140, 740); (140, 860)].
Proof.
  apply (render_places fixedSize fixedBounds example blankPage).
  unfold drawable, example. cbn [steps].
  repeat constructor; by eexists.
Defined.

(** ** Writing and reading integers *)

Lemma digits_val_acc (ds : list ascii) :
  forall acc : Z, digits_val acc ds = acc * 10 ^ Z.of_nat (length ds) + digits_val 0 ds.
Proof.
  induction ds as [|c ds IH]; intros acc; cbn [digits_val length].
  - lia.
  - rewrite (IH (10 * acc + digit_val c)), (IH (10 * 0 + digit_val c)).
    rewrite Nat2Z.inj_succ, Z.pow_succ_r by lia. ring.
Qed.

Lemma digit_val_pretty_char (x : N) : (x < 10)%N -> digit_val (pretty_N_char x) = Z.of_N x.
Proof.
  intros Hx.
  assert (H : (x = 0 \/ x = 1 \/ x = 2 \/ x = 3 \/ x = 4 \/ x = 5 \/ x = 6 \/ x = 7
               \/ x = 8 \/ x = 9)%N) by lia.
  repeat (destruct H as [-> | H]; [reflexivity |]). by subst.
Qed.

Abbreviation chars := list_ascii_of_string.

Lemma pretty_N_go_val (x : N) :
  forall s : string,
    digits_val 0 (chars (pretty_N_go x s))
    = Z.of_N x * 10 ^ Z.of_nat (length (chars s)) + digits_val 0 (chars s).
Proof.
  induction (N.lt_wf_0 x) as [x _ IH]. intros s.
  destruct (decide (x = 0)%N) as [-> | Hx].
  - rewrite pretty_N_go_0. lia.
  - rewrite pretty_N_go_step by lia.
    rewrite IH by (apply N.div_lt; lia).
    cbn [list_ascii_of_string length digits_val].
    rewrite (digits_val_acc (chars s)).
    rewrite digit_val_pretty_char by (apply N.mod_lt; lia).
    rewrite Nat2Z.inj_succ, Z.pow_succ_r by lia.
    pose proof (N.div_mod x 10 ltac:(lia)) as Hdm.
    assert (Hz : Z.of_N x = 10 * Z.of_N (x `div` 10) + Z.of_N (x `mod` 10)) by lia.
    rewrite Hz. ring.
Qed.

Lemma pretty_N_val (n : N) : digits_val 0 (chars (pretty n)) = Z.of_N n.
Proof.
  unfold pretty, pretty_N. case_decide as Hn; [by subst |].
  rewrite pretty_N_go_val. cbn. lia.
Qed.

Lemma pretty_N_go_length (k : nat) :
  forall (x : N) (s : string),
    (x < 10 ^ N.of_nat k)%N ->
    (length (chars (pretty_N_go x s)) <= k + length (chars s))%nat.
Proof.
  induction k as [|k IH]; intros x s Hx.
  - assert (x = 0%N) as -> by (cbn in Hx; lia). rewrite pretty_N_go_0. lia.
  - destruct (decide (x = 0)%N) as [-> | Hx0].
    + rewrite pretty_N_go_0. lia.
    + rewrite pretty_N_go_step by lia.
      etrans; [apply IH |]; [| cbn; lia].
      rewrite Nat2N.inj_succ, N.pow_succ_r' in Hx.
      apply N.Div0.div_lt_upper_bound. lia.
Qed.

Lemma pretty_N_length (n : N) :
  (n < 10 ^ 21)%N -> (length (chars (pretty n)) <= 21)%nat.
Proof.
  intros Hn. unfold pretty, pretty_N. case_decide; [cbn; lia |].
  etrans; [apply (pretty_N_go_length 21)|]; [exact Hn | cbn; lia].
Qed.

Lemma pretty_N_go_grows (x : N) :
  forall s : string, (length (chars s) <= length (chars (pretty_N_go x s)))%nat.
Proof.
  induction (N.lt_wf_0 x) as [x _ IH]. intros s.
  destruct (decide (x = 0)%N) as [-> | Hx].
  - by rewrite pretty_N_go_0.
  - rewrite pretty_N_go_step by lia.
    etrans; [| apply IH; apply N.div_lt; lia]. cbn. lia.
Qed.

Lemma pretty_N_nonempty (n : N) : exists c r, pretty n = String c r.
Proof.
  unfold pretty, pretty_N. case_decide as Hn; [by eexists _, _ |].
  rewrite pretty_N_go_step by lia.
  pose proof (pretty_N_go_grows (n `div` 10) (String (pretty_N_char (n `mod` 10)) "")) as H.
  destruct (pretty_N_go _ _) as [|c r]; [cbn in H; lia | by eexists _, _].
Qed.

Lemma pretty_N_digits (n : N) : digitsOnly (pretty n) = true.
Proof.
  unfold pretty, pretty_N. case_decide; [done |]. by apply pretty_N_go_digits.
Qed.

(** *** [ToString] of an integer *)

Lemma dropZeros_split (ds : list ascii) :
  ds = (zeros (countZeros ds) ++ dropZeros ds)%list.
Proof.
  induction ds as [|c ds IH]; [done |]. cbn [countZeros dropZeros].
  destruct (is_zero_char c) eqn:Hc; [| done].
  apply Ascii.eqb_eq in Hc as ->. unfold zeros in *. cbn [repeat app].
  f_equal. exact IH.
Qed.

Lemma zeros_rev (m : nat) : rev (zeros m) = zeros m.
Proof.
  unfold zeros. induction m as [|m IH]; [done |].
  cbn [repeat rev]. rewrite IH. clear IH.
  induction m as [|m IH]; [done |]. cbn. by rewrite IH.
Qed.

Lemma stripTrailingZeros_pad (ds : list ascii) :
  (stripTrailingZeros ds ++ zeros (length ds - length (stripTrailingZeros ds)))%list = ds.
Proof.
  unfold stripTrailingZeros.
  pose proof (dropZeros_split (rev ds)) as H.
  assert (Hds : ds = (rev (dropZeros (rev ds)) ++ zeros (countZeros (rev ds)))%list).
  { rewrite <-(rev_involutive ds) at 1. rewrite H at 1.
    by rewrite rev_app_distr, zeros_rev. }
  assert (Hlen : (length ds - length (rev (dropZeros (rev ds))))%nat = countZeros (rev ds)).
  { rewrite Hds at 1. rewrite length_app. unfold zeros. rewrite repeat_length. lia. }
  rewrite Hlen. by rewrite <-Hds.
Qed.

Lemma stripTrailingZeros_length (ds : list ascii) :
  (length (stripTrailingZeros ds) <= length ds)%nat.
Proof.
  rewrite <-(stripTrailingZeros_pad ds) at 2. rewrite length_app. lia.
Qed.

Lemma fracDigits_zero (fuel : nat) (b : Z) : fracDigits fuel 0 b = [].
Proof. by destruct fuel. Qed.

Lemma positiveToString_integer (a : Z) :
  0 < a < 10 ^ 21 -> positiveToString a 1 = chars (pretty (Z.to_N a)).
Proof.
  intros Ha. unfold positiveToString.
  rewrite Z.div_1_r, Z.mod_1_r, fracDigits_zero.
  destruct (a =? 0) eqn:H0; [lia |].
  rewrite app_nil_r. unfold decDigits.
  set (ds := chars (pretty (Z.to_N a))).
  assert (Hlen : (length ds <= 21)%nat) by (apply pretty_N_length; lia).
  pose proof (stripTrailingZeros_length ds) as Hk.
  unfold layoutDigits.
  replace ((Z.of_nat (length (stripTrailingZeros ds)) <=? Z.of_nat (length ds))
           && (Z.of_nat (length ds) <=? 21)) with true
    by (symmetry; apply andb_true_intro; split; lia).
  replace (Z.to_nat (Z.of_nat (length ds) - Z.of_nat (length (stripTrailingZeros ds))))
    with (length ds - length (stripTrailingZeros ds))%nat by lia.
  apply stripTrailingZeros_pad.
Qed.

Lemma ToString_integer (z : Z) : plain z -> ToString (ofZ z) = intText z.
Proof.
  intros [Hlo Hhi]. unfold intText.
  change (ToString (ofZ z))
    with (if z =? 0 then "0"
          else if z <? 0 then string_of_list_ascii (minus_char :: positiveToString (- z) 1)
               else string_of_list_ascii (positiveToString z 1)).
  destruct (z =? 0) eqn:H0.
  - apply Z.eqb_eq in H0 as ->. reflexivity.
  - apply Z.eqb_neq in H0. destruct (z <? 0) eqn:Hneg.
    + rewrite positiveToString_integer by lia. cbn [string_of_list_ascii].
      by rewrite string_of_list_ascii_of_string.
    + rewrite positiveToString_integer by lia.
      by rewrite string_of_list_ascii_of_string.
Qed.

(** *** Reading an integer back *)

Lemma append_empty_r (s : string) : s +:+ "" = s.
Proof.
  induction s as [|c s IH]; [done |].
  change (String c (s +:+ "") = String c s). by rewrite IH.
Qed.

Lemma chars_length (s : string) : length (chars s) = String.length s.
Proof. induction s as [|c s IH]; [done |]. cbn. by rewrite IH. Qed.

Lemma spanDigits_digits (ds rest : string) :
  digitsOnly ds = true ->
  match rest with EmptyString => True | String c _ => is_digit c = false end ->
  spanDigits (ds +:+ rest) = (chars ds, rest).
Proof.
  induction ds as [|c ds IH]; intros Hds Hrest.
  - change ("" +:+ rest) with rest. destruct rest as [|c r]; [done |].
    cbn. by rewrite Hrest.
  - cbn [digitsOnly] in Hds. apply andb_prop in Hds as [Hc Hds].
    change (String c ds +:+ rest) with (String c (ds +:+ rest)).
    cbn [spanDigits]. rewrite Hc, (IH Hds Hrest). reflexivity.
Qed.

Lemma matchUnsigned_digits (neg : bool) (c : ascii) (ds rest : string) :
  digitsOnly (String c ds) = true ->
  endsNumber rest ->
  matchUnsigned neg (String c ds +:+ rest) = Some (Token neg (chars (String c ds)) []).
Proof.
  intros Hds Hrest. unfold matchUnsigned.
  rewrite spanDigits_digits; [| done | by destruct rest as [|c' r]; [| destruct Hrest]].
  cbn [list_ascii_of_string].
  destruct rest as [|c' r]; [done |]. destruct Hrest as [_ Hdot].
  destruct (Ascii.eqb c' dot_char) eqn:Heq; [| done].
  by apply Ascii.eqb_eq in Heq.
Qed.

Lemma matchAll_skip (a b : string) : matchAll (String.length a) (a +:+ b) = matchAll 0 b.
Proof.
  induction a as [|c a IH]; [done |].
  change (String c a +:+ b) with (String c (a +:+ b)). cbn [String.length matchAll].
  exact IH.
Qed.

Lemma matchAll_separator (c : ascii) (r : string) :
  is_digit c = false -> c <> minus_char -> matchAll 0 (String c r) = matchAll 0 r.
Proof.
  intros Hc Hm. cbn [matchAll].
  assert (Hhere : matchHere (String c r) = None).
  { unfold matchHere. destruct (Ascii.eqb c minus_char) eqn:Heq.
    - by apply Ascii.eqb_eq in Heq.
    - unfold matchUnsigned. cbn [spanDigits]. by rewrite Hc. }
  by rewrite Hhere.
Qed.

Lemma matchAll_digits (c : ascii) (ds rest : string) :
  digitsOnly (String c ds) = true ->
  endsNumber rest ->
  matchAll 0 (String c ds +:+ rest)
  = Token false (chars (String c ds)) [] :: matchAll 0 rest.
Proof.
  intros Hds Hrest.
  pose proof (matchUnsigned_digits false c ds rest Hds Hrest) as Hm.
  change (String c ds +:+ rest) with (String c (ds +:+ rest)) in *.
  cbn [matchAll]. unfold matchHere.
  destruct (Ascii.eqb c minus_char) eqn:Heq.
  { apply Ascii.eqb_eq in Heq as ->. discriminate. }
  rewrite Hm. f_equal.
  unfold tokenLength. cbn [tok_neg tok_int tok_frac list_ascii_of_string length].
  replace (0 + S (length (chars ds)) + 0 - 1)%nat with (String.length ds)
    by (rewrite chars_length; lia).
  apply matchAll_skip.
Qed.

Lemma matchAll_minus_digits (c : ascii) (ds rest : string) :
  digitsOnly (String c ds) = true ->
  endsNumber rest ->
  matchAll 0 (String minus_char (String c ds +:+ rest))
  = Token true (chars (String c ds)) [] :: matchAll 0 rest.
Proof.
  intros Hds Hrest.
  pose proof (matchUnsigned_digits true c ds rest Hds Hrest) as Hm.
  cbn [matchAll]. unfold matchHere.
  change (Ascii.eqb minus_char minus_char) with true. cbn match.
  rewrite Hm. f_equal.
  unfold tokenLength. cbn [tok_neg tok_int tok_frac list_ascii_of_string length].
  replace (1 + S (length (chars ds)) + 0 - 1)%nat with (String.length (String c ds))
    by (cbn; rewrite chars_length; lia).
  apply matchAll_skip.
Qed.

Lemma Number_integer (neg : bool) (ds : list ascii) :
  Number (Token neg ds [])
  = ofZ (if neg then - digits_val 0 ds else digits_val 0 ds).
Proof.
  unfold Number, ofZ. cbn [tok_neg tok_int tok_frac length digits_val].
  change (10 ^ Z.of_nat 0) with 1.
  rewrite Z2Qc_inj_0, Z2Qc_inj_1. unfold Qcdiv. rewrite Qcmult_0_l, Qcplus_0_r.
  destruct neg; [by rewrite Z2Qc_inj_opp | done].
Qed.

Lemma read_integer (z : Z) (rest : string) :
  endsNumber rest ->
  map Number (matchAll 0 (intText z +:+ rest)) = ofZ z :: map Number (matchAll 0 rest).
Proof.
  intros Hrest. unfold intText. destruct (z <? 0) eqn:Hneg.
  - destruct (pretty_N_nonempty (Z.to_N (- z))) as (c & ds & Hp).
    pose proof (pretty_N_digits (Z.to_N (- z))) as Hd.
    pose proof (pretty_N_val (Z.to_N (- z))) as Hv.
    rewrite Hp in *.
    change (String minus_char (String c ds) +:+ rest)
      with (String minus_char (String c ds +:+ rest)).
    rewrite (matchAll_minus_digits c ds rest Hd Hrest). cbn [map].
    rewrite Number_integer, Hv. do 2 f_equal. lia.
  - destruct (pretty_N_nonempty (Z.to_N z)) as (c & ds & Hp).
    pose proof (pretty_N_digits (Z.to_N z)) as Hd.
    pose proof (pretty_N_val (Z.to_N z)) as Hv.
    rewrite Hp in *.
    rewrite (matchAll_digits c ds rest Hd Hrest). cbn [map].
    rewrite Number_integer, Hv. do 2 f_equal. lia.
Qed.

(** X16: an integer of magnitude below 10^21 that a template literal
    writes into a text is read back by the parser of [bezierMidpoint] as
    that integer, when nothing follows it and when a character that is
    neither a digit nor a dot follows it. *)
Theorem integer_round_trip (z : Z) :
  plain z ->
  matchNumbers (ToString (ofZ z)) = [ofZ z]
  /\ forall rest : string,
       endsNumber rest ->
       matchNumbers (ToString (ofZ z) +:+ rest) = ofZ z :: matchNumbers rest.
Proof.
  intros Hz. rewrite (ToString_integer z Hz). split.
  - rewrite <-(append_empty_r (intText z)). unfold matchNumbers.
    by rewrite (read_integer z "" I).
  - intros rest Hrest. unfold matchNumbers. by apply read_integer.
Qed.

Lemma integer_round_trip_witness :
  matchNumbers (ToString (ofZ (-1250))) = [ofZ (-1250)].
Proof.
  apply (proj1 (integer_round_trip (-1250) ltac:(unfold plain; split; reflexivity))).
Defined.

(** *** Reading a curve back *)

Lemma read_path (a b c1 c2 c3 c4 e f : Z) :
  map Number
    (matchAll 0
       ("M " +:+ intText a +:+ " " +:+ intText b +:+
        " C " +:+ intText c1 +:+ " " +:+ intText c2 +:+
        ", " +:+ intText c3 +:+ " " +:+ intText c4 +:+
        ", " +:+ intText e +:+ " " +:+ intText f))
  = map ofZ [a; b; c1; c2; c3; c4; e; f].
Proof.
  assert (Hsp : forall r, endsNumber (String " "%char r)) by (by split).
  assert (Hco : forall r, endsNumber (String ","%char r)) by (by split).
  change (map Number (matchAll 0
    (String "M"%char (String " "%char
      (intText a +:+
       String " "%char
      (intText b +:+
       String " "%char (String "C"%char (String " "%char
      (intText c1 +:+
       String " "%char
      (intText c2 +:+
       String ","%char (String " "%char
      (intText c3 +:+
       String " "%char
      (intText c4 +:+
       String ","%char (String " "%char
      (intText e +:+
       String " "%char
      (intText f)))))))))))))))
    = map ofZ [a; b; c1; c2; c3; c4; e; f]).
  rewrite <-(append_empty_r (intText f)).
  repeat (rewrite matchAll_separator by done).
  rewrite read_integer by apply Hsp. cbn [map]. f_equal.
  repeat (rewrite matchAll_separator by done).
  rewrite read_integer by apply Hsp. f_equal.
  repeat (rewrite matchAll_separator by done).
  rewrite read_integer by apply Hsp. f_equal.
  repeat (rewrite matchAll_separator by done).
  rewrite read_integer by apply Hco. f_equal.
  repeat (rewrite matchAll_separator by done).
  rewrite read_integer by apply Hsp. f_equal.
  repeat (rewrite matchAll_separator by done).
  rewrite read_integer by apply Hco. f_equal.
  repeat (rewrite matchAll_separator by done).
  rewrite read_integer by apply Hsp. f_equal.
  repeat (rewrite matchAll_separator by done).
  rewrite read_integer by exact I. reflexivity.
Qed.

Lemma deCasteljau_routed (a b e f o : Qc) :
  deCasteljauHalf
    (mkCubic (Point.mk (Fin a) (Fin b)) (Point.mk (Fin a + Fin o)%num (Fin b))
             (Point.mk (Fin e - Fin o)%num (Fin f)) (Point.mk (Fin e) (Fin f)))
  = halfway (Point.mk (Fin a) (Fin b)) (Point.mk (Fin e) (Fin f)).
Proof.
  unfold deCasteljauHalf, halfway, ofZ. cbn.
  by rewrite mean_of_means, mean_of_means_flat.
Qed.

Lemma small_plain (z : Z) : small z -> plain z.
Proof. unfold small, plain. lia. Qed.

Lemma small_sum_plain (a o : Z) : small a -> small o -> plain (a + o) /\ plain (a - o).
Proof. unfold small, plain. lia. Qed.

(** X17: when the two anchors of a wire are at integer points and the
    offset is an integer, all of magnitude below 2^50, so that no sum,
    difference or halving of the router rounds, the text [pathBetween]
    writes is read back by [bezierMidpoint] as the eight numbers of the
    curve, and the point it returns is the mean of the two anchors. *)
Theorem integer_wire_midpoint
    (fromBox toBox : NodeBBox.t) (offset : number) (a b e f o : Z) :
  rightMiddle fromBox = Point.mk (ofZ a) (ofZ b) ->
  leftMiddle toBox = Point.mk (ofZ e) (ofZ f) ->
  offset = ofZ o ->
  small a -> small b -> small e -> small f -> small o ->
  matchNumbers (pathBetween fromBox toBox offset)
  = coordinates (routeCurve fromBox toBox offset)
  /\ bezierMidpoint (pathBetween fromBox toBox offset)
     = halfway (rightMiddle fromBox) (leftMiddle toBox).
Proof.
  intros Hfrom Hto -> Ha Hb He Hf Ho.
  destruct (small_sum_plain a o Ha Ho) as [Hao _].
  destruct (small_sum_plain e o He Ho) as [_ Heo].
  apply small_plain in Ha, Hb, He, Hf.
  assert (Hcurve : routeCurve fromBox toBox (ofZ o)
                   = mkCubic (Point.mk (ofZ a) (ofZ b)) (Point.mk (ofZ (a + o)) (ofZ b))
                             (Point.mk (ofZ (e - o)) (ofZ f)) (Point.mk (ofZ e) (ofZ f))).
  { unfold routeCurve. rewrite Hfrom, Hto. cbn [Point.x Point.y].
    by rewrite ofZ_add, ofZ_sub. }
  assert (Htext : pathBetween fromBox toBox (ofZ o)
                  = "M " +:+ intText a +:+ " " +:+ intText b +:+
                    " C " +:+ intText (a + o) +:+ " " +:+ intText b +:+
                    ", " +:+ intText (e - o) +:+ " " +:+ intText f +:+
                    ", " +:+ intText e +:+ " " +:+ intText f).
  { unfold pathBetween.
    change (NodeBBox.x fromBox + NodeBBox.w fromBox)%num with (Point.x (rightMiddle fromBox)).
    change (NodeBBox.y fromBox + NodeBBox.h fromBox / ofZ 2)%num
      with (Point.y (rightMiddle fromBox)).
    change (NodeBBox.x toBox) with (Point.x (leftMiddle toBox)).
    change (NodeBBox.y toBox + NodeBBox.h toBox / ofZ 2)%num
      with (Point.y (leftMiddle toBox)).
    rewrite Hfrom, Hto. cbn [Point.x Point.y]. rewrite ofZ_add, ofZ_sub.
    by rewrite !ToString_integer by done. }
  assert (Hread : matchNumbers (pathBetween fromBox toBox (ofZ o))
                  = coordinates (routeCurve fromBox toBox (ofZ o))).
  { rewrite Htext, Hcurve. unfold matchNumbers. rewrite read_path. reflexivity. }
  split; [exact Hread |].
  rewrite (bezierMidpoint_of_coordinates _ (routeCurve fromBox toBox (ofZ o)) [])
    by (by rewrite app_nil_r).
  unfold routeCurve. rewrite Hfrom, Hto. cbn [Point.x Point.y].
  apply deCasteljau_routed.
Qed.

Lemma integer_wire_midpoint_witness :
  bezierMidpoint (pathBetween (boxA (OtherEl "a" [])) (boxB (OtherEl "b" [])) (ofZ 60))
  = halfway (rightMiddle (boxA (OtherEl "a" []))) (leftMiddle (boxB (OtherEl "b" []))).
Proof.
  apply (integer_wire_midpoint (boxA (OtherEl "a" [])) (boxB (OtherEl "b" [])) (ofZ 60)
           100 20 300 120 60).
  - closed_num.
  - closed_num.
  - reflexivity.
  - unfold small. lia.
  - unfold small. lia.
  - unfold small. lia.
  - unfold small. lia.
  - unfold small. lia.
Defined.

(** At the ends of that range the router over doubles agrees: the text is
    read back number for number and no operation rounds. *)
Example integer_wire_at_the_bounds :
  Binary64.matchNumbers
    (Binary64.pathBetween
       (Binary64.Box.mk (Binary64.ofZ 0) (Binary64.ofZ (1 - 2 ^ 50)) (Binary64.ofZ (2 ^ 50 - 1))
          (Binary64.ofZ 0))
       (Binary64.Box.mk (Binary64.ofZ (2 ^ 50 - 2)) (Binary64.ofZ (2 ^ 50 - 1)) (Binary64.ofZ 0)
          (Binary64.ofZ 0))
       (Binary64.ofZ (2 ^ 50 - 1)))
  = Router64.coordinates
      (Router64.routeCurve
         (Binary64.Box.mk (Binary64.ofZ 0) (Binary64.ofZ (1 - 2 ^ 50)) (Binary64.ofZ (2 ^ 50 - 1))
            (Binary64.ofZ 0))
         (Binary64.Box.mk (Binary64.ofZ (2 ^ 50 - 2)) (Binary64.ofZ (2 ^ 50 - 1)) (Binary64.ofZ 0)
            (Binary64.ofZ 0))
         (Binary64.ofZ (2 ^ 50 - 1)))
  /\ Router64.exactRoute
       (Binary64.Box.mk (Binary64.ofZ 0) (Binary64.ofZ (1 - 2 ^ 50)) (Binary64.ofZ (2 ^ 50 - 1))
          (Binary64.ofZ 0))
       (Binary64.Box.mk (Binary64.ofZ (2 ^ 50 - 2)) (Binary64.ofZ (2 ^ 50 - 1)) (Binary64.ofZ 0)
          (Binary64.ofZ 0))
       (Binary64.ofZ (2 ^ 50 - 1))
     = true.
Proof. split; by vm_compute. Qed.

(** Beyond that range it does not: with the anchors at x = 782 and at
    x = 909763638706951168 and offset 70, the abscissa returned is not the
    mean of the two. *)
Example integer_wire_beyond_the_bounds :
  Binary64.ToString
    (Binary64.Point.x
       (Binary64.bezierMidpoint
          (Binary64.pathBetween
             (Binary64.Box.mk (Binary64.ofZ 0) (Binary64.ofZ 0) (Binary64.ofZ 782) (Binary64.ofZ 0))
             (Binary64.Box.mk (Binary64.ofZ 909763638706951168) (Binary64.ofZ 0)
                (Binary64.ofZ 0) (Binary64.ofZ 0))
             (Binary64.ofZ 70))))
  = "454881819353476030"
  /\ Binary64.ToString
       (Router64.mean (Binary64.ofZ 782) (Binary64.ofZ 909763638706951168))
     = "454881819353476000".
Proof. split; by vm_compute. Qed.

(** ** Load and resize *)

Lemma example_drawable : drawable example.
Proof. unfold drawable, example. cbn [steps]. repeat constructor; by eexists. Qed.

Lemma render_example_over (sz1 sz2 : Sizes) (wd : World) :
  render (nodeSize sz2) (canvasSize sz2) example
    (exec (render (nodeSize sz1) (canvasSize sz1) example) wd)
  = render (nodeSize sz2) (canvasSize sz2) example wd.
Proof.
  pose proof (render_grows_from_cleared (nodeSize sz1) (canvasSize sz1) example wd) as Hgrow.
  set (wd1 := exec (render (nodeSize sz1) (canvasSize sz1) example) wd) in *.
  rewrite !render_unfold.
  rewrite (clearAll_after_traversal wd wd1 Hgrow).
  rewrite (framed_traversal (nodeSize sz2) (steps example) originY).
  destruct (stepsLoop_completes (nodeSize sz2) (steps example) example_drawable
              originY (clearAll wd)) as (cy & wdL & ->).
  reflexivity.
Qed.

Lemma listeners_render_once (sz1 sz2 : Sizes) (wd : World) (k : nat) :
  Nat.iter (S k) (exec (render (nodeSize sz2) (canvasSize sz2) example))
    (exec (render (nodeSize sz1) (canvasSize sz1) example) wd)
  = exec (render (nodeSize sz2) (canvasSize sz2) example) wd.
Proof.
  induction k as [|k IH].
  - cbn. unfold exec at 1. by rewrite render_example_over.
  - change (Nat.iter (S (S k)) ?f ?x) with (f (Nat.iter (S k) f x)).
    rewrite IH. unfold exec at 1. by rewrite render_example_over.
Qed.

Lemma last_default (rs : list Sizes) (r d1 d2 : Sizes) :
  List.last (r :: rs) d1 = List.last (r :: rs) d2.
Proof.
  revert r. induction rs as [|r' rest IH]; intros r; [done |].
  change (List.last (r' :: rest) d1 = List.last (r' :: rest) d2). apply IH.
Qed.

Lemma resizes_keep_last (rs : list Sizes) :
  forall (b : Browser) (sz : Sizes) (wd : World),
    (0 < resizeListeners b)%nat ->
    page b = exec (render (nodeSize sz) (canvasSize sz) example) wd ->
    page (handleAll b (map (pair Resize) rs))
    = exec (render (nodeSize (List.last rs sz)) (canvasSize (List.last rs sz)) example) wd
    /\ resizeListeners (handleAll b (map (pair Resize) rs)) = resizeListeners b.
Proof.
  induction rs as [|r rest IH]; intros b sz wd Hk Hpage; [done |].
  change (handleAll b (map (pair Resize) (r :: rest)))
    with (handleAll (onResize r b) (map (pair Resize) rest)).
  destruct (IH (onResize r b) r wd) as [Hp Hl].
  - done.
  - unfold onResize. cbn [page]. destruct (resizeListeners b) as [|k]; [lia |].
    rewrite Hpage. apply listeners_render_once.
  - rewrite Hp, Hl. split; [| done].
    destruct rest as [|r' rest']; [done |].
    change (List.last (r :: r' :: rest') sz) with (List.last (r' :: rest') sz).
    by rewrite (last_default rest' r' r sz).
Qed.

(** X18: after the load event and any number of resize events, the page is
    the one a single [render(example)] with the sizes of the last of these
    events gives on the page as it was before loading; before the load
    event, a resize changes nothing. *)
Theorem page_after_load_and_resizes (b : Browser) (sz0 : Sizes) (rs : list Sizes) :
  page (handleAll b ((DOMContentLoaded, sz0) :: map (pair Resize) rs))
  = exec (render (nodeSize (List.last rs sz0)) (canvasSize (List.last rs sz0)) example) (page b)
  /\ (resizeListeners b = 0%nat ->
      handleAll b (map (pair Resize) rs) = b).
Proof.
  split.
  - change (handleAll b ((DOMContentLoaded, sz0) :: map (pair Resize) rs))
      with (handleAll (onContentLoaded sz0 b) (map (pair Resize) rs)).
    assert (Hload : onContentLoaded sz0 b
                    = mkBrowser (exec (render (nodeSize sz0) (canvasSize sz0) example) (page b))
                                (S (resizeListeners b))).
    { unfold onContentLoaded, exec.
      pose proof (render_completes (nodeSize sz0) (canvasSize sz0) example (page b)
                    example_drawable) as Hok.
      unfold outcome in Hok.
      destruct (render (nodeSize sz0) (canvasSize sz0) example (page b)) as [r wd].
      cbn in Hok. by subst. }
    rewrite Hload.
    apply (resizes_keep_last rs _ sz0 (page b)); cbn; [lia | done].
  - intros Hk. induction rs as [|r rest IH]; [done |].
    change (handleAll b (map (pair Resize) (r :: rest)))
      with (handleAll (onResize r b) (map (pair Resize) rest)).
    replace (onResize r b) with b; [exact IH |].
    unfold onResize. rewrite Hk. destruct b; cbn in *; by subst.
Qed.

(** ** A step that cannot be drawn *)

Lemma forEachFrom_app {A} (body : A -> nat -> M unit) (l1 l2 : list A) :
  forall (i : nat) (wd : World),
    forEachFrom body i (l1 ++ l2) wd
    = bind (forEachFrom body i l1) (fun _ => forEachFrom body (i + length l1) l2) wd.
Proof.
  induction l1 as [|a l1 IH]; intros i wd.
  - cbn. by rewrite Nat.add_0_r.
  - cbn [app forEachFrom length]. unfold bind.
    destruct (body a i wd) as [[[] | e] wd1]; [| done].
    rewrite IH. unfold bind. by rewrite Nat.add_succ_comm.
Qed.

Lemma stepsLoop_app (measure : Element -> number * number) (l1 l2 : list Step) :
  forall (cursorY : number) (wd : World),
    stepsLoop measure cursorY (l1 ++ l2) wd
    = bind (stepsLoop measure cursorY l1) (fun cy => stepsLoop measure cy l2) wd.
Proof.
  induction l1 as [|step l1 IH]; intros cursorY wd; [done |].
  cbn [app stepsLoop]. unfold bind.
  destruct (stepBody measure cursorY step wd) as [[cy | e] wd1]; [| done].
  rewrite IH. reflexivity.
Qed.

(** X19: a split whose branch at index k is the first that does not begin
    with an action makes the traversal throw after the decision node and
    the nodes, wires and labels of the k branches before it have been
    drawn; they stay on the page, and nothing is drawn for the branches
    from k on. *)
Theorem split_throws_after_drawing
    (measure : Element -> number * number) (cursorY : number) (id label : string)
    (good : list Branch) (acts : list Action.t) (bad : Branch) (later : list Branch)
    (wd : World) :
  Forall2 (fun br a => firstAction br = Some a) good acts ->
  firstAction bad = None ->
  let ds := fanOut measure id cursorY (decisionBox measure cursorY id label) 0
              (zip good acts) in
  exists (e : Exn) (wd' : World),
    stepBody measure cursorY (SplitStep id label (good ++ bad :: later)) wd = (Throw e, wd')
    /\ canvas wd' = (canvas wd ++ decisionNode cursorY id label :: drawnElements ds)%list
    /\ svg wd' = (svg wd ++ map drawnWire ds)%list
    /\ length ds = length good.
Proof.
  intros Hgood Hbad ds.
  set (el := decisionNode cursorY id label).
  set (wd1 := setBox id (decisionBox measure cursorY id label) (appendChild el wd)).
  destruct (branches_draw measure id cursorY good acts 0
              (decisionBox measure cursorY id label) wd1 Hgood)
    as (wd2 & Hrun & Hc & Hs).
  { apply lookup_insert_eq. }
  destruct (branchBody_without_action measure id cursorY bad (0 + length good) wd2 Hbad)
    as [e He].
  exists e, wd2. split; [| split; [| split]].
  - cbn [stepBody].
    rewrite (bind_normal _ _ wd wd1 tt) by apply createNode_run.
    unfold forEach. erewrite bind_throws; [reflexivity |].
    rewrite forEachFrom_app. rewrite (bind_normal _ _ _ _ _ Hrun).
    cbn [forEachFrom]. by rewrite (bind_throws _ _ _ _ _ He).
  - rewrite Hc. cbn. by rewrite <-app_assoc.
  - exact Hs.
  - clear -Hgood. subst ds. generalize (decisionBox measure cursorY id label), 0%nat.
    induction Hgood as [|br a rest acts' _ _ IH]; intros src i; [done |].
    cbn [zip zip_with fanOut length]. f_equal. apply IH.
Qed.

Lemma split_throws_after_drawing_witness :
  exists (e : Exn) (wd' : World),
    stepBody fixedSize (ofZ 160)
      (SplitStep "gate" "Gate?" (twoWay ++ mkBranch "maybe" [] :: threeWay)) blankPage
    = (Throw e, wd')
    /\ length (nodesOf (canvas wd')) = 3%nat
    /\ length (svg wd') = 2%nat.
Proof.
  destruct (split_throws_after_drawing fixedSize (ofZ 160) "gate" "Gate?"
              twoWay twoWayActions (mkBranch "maybe" []) threeWay blankPage)
    as (e & wd' & Hrun & Hc & Hs & _).
  - repeat constructor; reflexivity.
  - reflexivity.
  - exists e, wd'. split; [exact Hrun |]. split.
    + rewrite Hc. reflexivity.
    + rewrite Hs. reflexivity.
Defined.

(** X20: nothing is done for the steps that follow a split that cannot be
    drawn: rendering a plan with such a split ends as rendering the plan cut
    after that split does, on the same page. *)
Theorem render_stops_at_failing_step
    (measure : Element -> number * number)
    (canvasRect : list Element -> number * number)
    (before after : list Step) (step : Step) (wd : World) :
  ~ branchesDrawable step ->
  render measure canvasRect (mkPlan (before ++ step :: after)) wd
  = render measure canvasRect (mkPlan (before ++ [step])) wd.
Proof.
  intros Hstep. rewrite !render_unfold. cbn [steps].
  rewrite !stepsLoop_app. unfold bind.
  destruct (stepsLoop measure originY before (clearAll wd)) as [[cy | e] wd1]; [| done].
  cbn [stepsLoop]. unfold bind.
  destruct (stepBody_throws measure cy step wd1 Hstep) as (e & wd2 & ->). reflexivity.
Qed.

Lemma render_stops_at_failing_step_witness :
  render fixedSize fixedBounds
    (mkPlan (steps collidingPlan ++ SplitStep "gate" "Gate?" [mkBranch "maybe" []]
             :: steps example)) blankPage
  = render fixedSize fixedBounds
      (mkPlan (steps collidingPlan ++ [SplitStep "gate" "Gate?" [mkBranch "maybe" []]]))
      blankPage.
Proof.
  apply render_stops_at_failing_step.
  cbn. intros H. apply Forall_cons in H as [[a Ha] _]. discriminate.
Defined.
